(** * The duplex streaming client: websocket hook, PCM playback hook, chat glue

    A shallow embedding of the React client of the query assistant:
    - [Pcm]: the per-sample conversion of [convertPcmToAudioBuffer]
      (frontend/src/lib/useAudioPlayback.js);
    - [UseWebSocket]: the [useWebSocket] hook, in its two variants
      (frontend/src/lib/useWebSocket.js and the gateway variant);
    - [UseAudioPlayback]: the PCM queue of the [useAudioPlayback] hook;
    - [UseAudioRecording] and [ChatInterface]: the recording hook and the
      component that wires the three hooks together (frontend/src/app/page.js).

    JavaScript numbers that hold audio samples are modelled as exact
    rationals; everything else is integers, booleans, strings and lists. *)

From Stdlib Require Import ZArith QArith Qround Qabs Lqa List String Bool Lia.
From Stdlib.Strings Require Import Byte.
From Stdlib Require DecimalString.
Import ListNotations.

Local Open Scope Z_scope.

(* ===================================================================== *)
(** * 16-bit little-endian PCM                                            *)
(* ===================================================================== *)

Module Pcm.

(** An element of a [Uint8Array], as a number. *)
Definition byte_val (b : byte) : Z := Z.of_N (Byte.to_N b).

(** [pcmData[offset]]: reading past the end of a typed array gives
    [undefined], which [& 0xff] turns into 0. *)
Definition at_offset (pcmData : list byte) (offset : nat) : Z :=
  match nth_error pcmData offset with
  | Some b => byte_val b
  | None => 0
  end.

(** [(pcmData[offset] & 0xff) | ((pcmData[offset + 1] & 0xff) << 8)] *)
Definition sample_at (pcmData : list byte) (offset : nat) : Z :=
  Z.lor (Z.land (at_offset pcmData offset) 0xff)
        (Z.shiftl (Z.land (at_offset pcmData (offset + 1)) 0xff) 8).

(** [(sample >= 0x8000) ? -1 + ((sample & 0x7fff) / 0x8000) : sample / 0x7fff] *)
Definition to_float (sample : Z) : Q :=
  if 0x8000 <=? sample
  then (-1 + inject_Z (Z.land sample 0x7fff) / inject_Z 0x8000)%Q
  else (inject_Z sample / inject_Z 0x7fff)%Q.

(** The body of [for (let i = 0; i < numSamples; i++)]: [todo] iterations
    are left and the next sample starts at [offset]. *)
Fixpoint fill (pcmData : list byte) (todo : nat) (offset : nat) : list Q :=
  match todo with
  | O => []
  | S k => to_float (sample_at pcmData offset) :: fill pcmData k (offset + 2)
  end.

Record AudioBuffer := {
  numberOfChannels : nat;
  sampleRate : Z;
  channelData : list Q
}.

(** The buffer [convertPcmToAudioBuffer] fills once [createBuffer] has
    returned: one channel of [length / 2] samples (the length is truncated
    by [createBuffer]; the write of an odd trailing byte's iteration falls
    outside the channel and is dropped). *)
Definition audioBufferOf (pcmSampleRate : Z) (pcmData : list byte) : AudioBuffer :=
  let numSamples := Nat.div (List.length pcmData) 2 in
  {| numberOfChannels := 1;
     sampleRate := pcmSampleRate;
     channelData := fill pcmData numSamples 0 |}.

(** ** The reference encoder *)

(** Modelled from the spec: the encoder of "encoding a sequence of float
    samples in [-1,1] to 16-bit LE PCM" is not part of the client (the bytes
    come from the speech service).  The reference taken here scales a
    negative sample by 0x8000 and any other by 0x7fff, the two scales of
    the decoder, and rounds to the nearest integer. *)
Definition quantize (s : Q) : Z :=
  if Qlt_le_dec s 0
  then Qfloor (s * inject_Z 0x8000 + (1 # 2))
  else Qfloor (s * inject_Z 0x7fff + (1 # 2)).

(** A number below 256 as a byte. *)
Definition byte_of (n : Z) : byte :=
  match Byte.of_N (Z.to_N n) with
  | Some b => b
  | None => x00
  end.

(** Modelled from the spec: a signed 16-bit value as two bytes, low byte
    first (two's complement). *)
Definition int16le (v : Z) : list byte :=
  let u := v mod 0x10000 in
  [byte_of (Z.land u 0xff); byte_of (Z.shiftr u 8)].

(** Modelled from the spec: the reference encoder of a sample sequence. *)
Definition encodePcm16le (samples : list Q) : list byte :=
  flat_map (fun s => int16le (quantize s)) samples.

Definition in_range (s : Q) : Prop := (-1 <= s /\ s <= 1)%Q.

Definition within (eps : Q) (s d : Q) : Prop := (Qabs (s - d) <= eps)%Q.

(** Five samples, among them both ends of the range. *)
Definition probes : list Q := [1; -1; 1 # 2; - (1 # 3); 0]%Q.

End Pcm.

(* ===================================================================== *)
(** * Wire frames                                                         *)
(* ===================================================================== *)

Module Wire.

(** The objects the clients pass to [JSON.stringify] before [socket.send]:
    one constructor per [command] value.  The React client sends the first
    four, the legacy page script all but [ping]. *)
Inductive Command :=
| text_query (text : string)
| audio_data (audio : string)
| interrupt_speech
| ping (timestamp : Z)
| toggle_listen (listening : bool)
| toggle_mute (muted : bool).

(** The objects [JSON.parse] yields for an inbound frame, by [type]. The
    payload of an [audio_chunk] is kept as the result of [atob] on its
    [data] field ([None] when [atob] throws). *)
Inductive Inbound :=
| transcription (text : string)
| response (text : string)
| status_text (text : string)
| error_text (text : string)
| results (data : list (list (string * string)))
| sql (query : string)
| audio_stream_start (sampleRate : option Z)
| audio_stream_end
| audio_chunk (format : string) (data : option (list byte))
| unhandled (type : string).

End Wire.

(* ===================================================================== *)
(** * The [useWebSocket] hook                                             *)
(* ===================================================================== *)

Module UseWebSocket.
Import Wire.

Local Open Scope string_scope.
Local Open Scope nat_scope.

(** The repository holds two variants of the hook: one builds the URL from
    a host name ([frontend/src/lib/useWebSocket.js]), the other from a
    gateway URL and reports close reasons. *)
Inductive Client := HostClient | GatewayClient.

(** What the hook reads from its surroundings. [window] is [None] when
    [typeof window === 'undefined'], otherwise it says whether
    [window.location.protocol === 'https:'].  [URL_host s] is
    [new URL(s).host] ([None] when the constructor throws) and
    [accepts url] says whether [new WebSocket(url)] returns. *)
Record Env := {
  NEXT_PUBLIC_WS_GATEWAY : option string;
  NEXT_PUBLIC_WS_HOST : option string;
  NEXT_PUBLIC_API_URL : option string;
  window : option bool;
  URL_host : string -> option string;
  accepts : string -> bool
}.

Inductive ReadyState := CONNECTING | OPEN | CLOSING | CLOSED.

(** A [WebSocket] object. Its handlers are closures built by one call of
    [connect]; [seen] is the value the variable [reconnectAttempts] has in
    the scope of that call, which is all the handlers read of the hook's
    state.  [sent] lists the frames handed to [send] while open. *)
Record Socket := {
  url : string;
  readyState : ReadyState;
  sent : list Command;
  seen : nat
}.

(** A pending [setTimeout]. Every timer of the hook calls [connect]; the
    [connect] it holds is the callback of the render in which
    [reconnectAttempts] was [scope]. *)
Record Timer := {
  handle : nat;
  delay : nat;
  scope : nat
}.

(** The hook's [useState] cells and [socketRef], the sockets built so far
    (a socket is named by its position in [sockets]), the pending timers,
    and the mount effect in force: [effect = Some (n, h)] when the effect
    last ran with the [connect] of scope [n]; [h] is the timer it holds, if
    it set one. *)
Record Hook := {
  isConnected : bool;
  status : string;
  reconnectAttempts : nat;
  messages : list Inbound;
  socketRef : option nat;
  sockets : list Socket;
  timers : list Timer;
  nextHandle : nat;
  effect : option (nat * option nat)
}.

Definition initial : Hook := {|
  isConnected := false;
  status := "Initializing...";
  reconnectAttempts := 0;
  messages := [];
  socketRef := None;
  sockets := [];
  timers := [];
  nextHandle := 0;
  effect := None
|}.

Definition maxReconnectAttempts : nat := 5.
Definition reconnectInterval : nat := 3000.

(** ** State setters *)

Definition setIsConnected (b : bool) (st : Hook) : Hook :=
  {| isConnected := b; status := status st;
     reconnectAttempts := reconnectAttempts st; messages := messages st;
     socketRef := socketRef st; sockets := sockets st; timers := timers st;
     nextHandle := nextHandle st; effect := effect st |}.

Definition setStatus (s : string) (st : Hook) : Hook :=
  {| isConnected := isConnected st; status := s;
     reconnectAttempts := reconnectAttempts st; messages := messages st;
     socketRef := socketRef st; sockets := sockets st; timers := timers st;
     nextHandle := nextHandle st; effect := effect st |}.

Definition setReconnectAttempts (n : nat) (st : Hook) : Hook :=
  {| isConnected := isConnected st; status := status st;
     reconnectAttempts := n; messages := messages st;
     socketRef := socketRef st; sockets := sockets st; timers := timers st;
     nextHandle := nextHandle st; effect := effect st |}.

Definition setMessages (ms : list Inbound) (st : Hook) : Hook :=
  {| isConnected := isConnected st; status := status st;
     reconnectAttempts := reconnectAttempts st; messages := ms;
     socketRef := socketRef st; sockets := sockets st; timers := timers st;
     nextHandle := nextHandle st; effect := effect st |}.

Definition setSocketRef (r : option nat) (st : Hook) : Hook :=
  {| isConnected := isConnected st; status := status st;
     reconnectAttempts := reconnectAttempts st; messages := messages st;
     socketRef := r; sockets := sockets st; timers := timers st;
     nextHandle := nextHandle st; effect := effect st |}.

Definition setSockets (ss : list Socket) (st : Hook) : Hook :=
  {| isConnected := isConnected st; status := status st;
     reconnectAttempts := reconnectAttempts st; messages := messages st;
     socketRef := socketRef st; sockets := ss; timers := timers st;
     nextHandle := nextHandle st; effect := effect st |}.

Definition setTimers (ts : list Timer) (next : nat) (st : Hook) : Hook :=
  {| isConnected := isConnected st; status := status st;
     reconnectAttempts := reconnectAttempts st; messages := messages st;
     socketRef := socketRef st; sockets := sockets st; timers := ts;
     nextHandle := next; effect := effect st |}.

Definition setEffect (e : option (nat * option nat)) (st : Hook) : Hook :=
  {| isConnected := isConnected st; status := status st;
     reconnectAttempts := reconnectAttempts st; messages := messages st;
     socketRef := socketRef st; sockets := sockets st; timers := timers st;
     nextHandle := nextHandle st; effect := e |}.

(** ** Browser objects *)

Definition withReadyState (r : ReadyState) (s : Socket) : Socket :=
  {| url := url s; readyState := r; sent := sent s; seen := seen s |}.

Definition withSent (fs : list Command) (s : Socket) : Socket :=
  {| url := url s; readyState := readyState s; sent := fs; seen := seen s |}.

(** Replace the socket at position [i]; nothing happens past the end. *)
Fixpoint update (i : nat) (f : Socket -> Socket) (ss : list Socket) : list Socket :=
  match ss, i with
  | [], _ => []
  | s :: rest, O => f s :: rest
  | s :: rest, S j => s :: update j f rest
  end.

Definition isOpen (s : Socket) : bool :=
  match readyState s with OPEN => true | _ => false end.

Definition isLive (s : Socket) : bool :=
  match readyState s with OPEN | CONNECTING => true | _ => false end.

(** [socket.close()]: an open or connecting socket starts closing, any
    other stays as it is. The [close] event comes later. *)
Definition socket_close (s : Socket) : Socket :=
  if isLive s then withReadyState CLOSING s else s.

(** [socket.send(JSON.stringify(message))] on an open socket. *)
Definition socket_send (message : Command) (s : Socket) : Socket :=
  withSent (sent s ++ [message]) s.

(** [setTimeout(callback, delay)], the callback being the [connect] of
    scope [n]; the handle returned is [nextHandle st]. *)
Definition setTimeout (n : nat) (ms : nat) (st : Hook) : Hook :=
  setTimers (timers st ++ [{| handle := nextHandle st; delay := ms; scope := n |}])
            (S (nextHandle st)) st.

Definition clearTimeout (h : nat) (st : Hook) : Hook :=
  setTimers (filter (fun t => negb (handle t =? h)) (timers st)) (nextHandle st) st.

(** ** Strings *)

Definition isEmpty (s : string) : bool :=
  match s with EmptyString => true | _ => false end.

(** [process.env.X || ''] *)
Definition orEmpty (v : option string) : string :=
  match v with Some s => s | None => "" end.

Fixpoint includes (needle s : string) : bool :=
  if String.prefix needle s then true
  else match s with
       | EmptyString => false
       | String _ rest => includes needle rest
       end.

Definition decimal (n : nat) : string :=
  DecimalString.NilEmpty.string_of_uint (Nat.to_uint n).

(** ** [connect] *)

Section Connect.
Variable env : Env.

(** [getHostFromUrl] of the host variant. *)
Definition getHostFromUrl (urlString : option string) : string :=
  match urlString with
  | None => ""
  | Some u =>
      if isEmpty u then ""
      else if includes "://" u then
        match URL_host env u with
        | Some h => h
        | None => u
        end
      else u
  end.

(** JavaScript's [a || b] on strings. *)
Definition orElse (a b : string) : string := if isEmpty a then b else a.

Definition apiHost : string :=
  orElse (getHostFromUrl (NEXT_PUBLIC_WS_HOST env))
         (orElse (getHostFromUrl (NEXT_PUBLIC_API_URL env)) "localhost:8001").

Definition wsProtocol : string :=
  match window env with
  | Some true => "wss:"
  | _ => "ws:"
  end.

(** The URL each variant connects to, for a fresh [clientId]. *)
Definition wsUrl (c : Client) (clientId : string) : string :=
  match c with
  | HostClient =>
      match window env with
      | Some _ => wsProtocol ++ "//" ++ apiHost ++ "/ws/" ++ clientId
      | None => ""
      end
  | GatewayClient =>
      orEmpty (NEXT_PUBLIC_WS_GATEWAY env) ++ "?client_id=" ++ clientId
  end.

(** "Close existing socket if open": [socketRef.current.close()] when the
    current socket is open or connecting. *)
Definition closeExisting (st : Hook) : Hook :=
  match socketRef st with
  | Some i => setSockets (update i socket_close (sockets st)) st
  | None => st
  end.

(** The [try] block of [connect]: [new WebSocket(wsUrl)] and the handler
    assignments, or the [catch] when the constructor throws. [n] is the
    value of [reconnectAttempts] in the scope of this [connect]. *)
Definition openSocket (n : nat) (wsUrl : string) (st : Hook) : Hook :=
  if accepts env wsUrl then
    let socket := {| url := wsUrl; readyState := CONNECTING; sent := []; seen := n |} in
    setSocketRef (Some (List.length (sockets st)))
      (setSockets (sockets st ++ [socket]) st)
  else setStatus "Connection error" st.

(** [connect], as built by the render in which [reconnectAttempts] is [n].
    [clientId] is the identifier drawn from [Math.random]. *)
Definition connect (c : Client) (n : nat) (clientId : string) (st : Hook) : Hook :=
  match c with
  | GatewayClient =>
      let apiGateway := orEmpty (NEXT_PUBLIC_WS_GATEWAY env) in
      if isEmpty apiGateway then setStatus "Configuration error" st
      else openSocket n (wsUrl c clientId) (closeExisting st)
  | HostClient =>
      let st1 := closeExisting st in
      if isEmpty (wsUrl c clientId) then st1
      else openSocket n (wsUrl c clientId) st1
  end.

End Connect.

(** ** Socket handlers *)

Record CloseEvent := {
  wasClean : bool;
  code : Z
}.

(** The [switch (event.code)] of the gateway variant's [onclose]. *)
Definition closeReason (code : Z) : string :=
  match code with
  | 1000%Z => "Normal closure"
  | 1001%Z => "Going away"
  | 1002%Z => "Protocol error"
  | 1003%Z => "Unsupported data"
  | 1005%Z => "No status received"
  | 1006%Z => "Abnormal closure - check server logs"
  | 1007%Z => "Invalid frame payload data"
  | 1008%Z => "Policy violation"
  | 1009%Z => "Message too big"
  | 1010%Z => "Mandatory extension missing"
  | 1011%Z => "Internal server error"
  | 1012%Z => "Service restart"
  | 1013%Z => "Try again later"
  | 1014%Z => "Bad gateway"
  | 1015%Z => "TLS handshake failure"
  | _ => "Unknown reason"
  end.

Definition failedStatus (c : Client) (code : Z) : string :=
  match c with
  | HostClient => "Connection failed"
  | GatewayClient => "Connection failed (" ++ closeReason code ++ ")"
  end.

Definition disconnectedStatus (c : Client) (code : Z) : string :=
  match c with
  | HostClient => "Disconnected"
  | GatewayClient => "Disconnected (" ++ closeReason code ++ ")"
  end.

(** [socket.onopen]. The gateway variant also sends a ping, from the
    socket [i] the handler belongs to; [now] is [Date.now()]. *)
Definition onopen (c : Client) (i : nat) (now : Z) (st : Hook) : Hook :=
  let st1 := setReconnectAttempts 0 (setStatus "Connected" (setIsConnected true st)) in
  match c with
  | HostClient => st1
  | GatewayClient =>
      setSockets (update i (socket_send (ping now)) (sockets st1)) st1
  end.

(** [socket.onclose]. [reconnectAttempts] is the variable the handler
    closes over (the [seen] of its socket), not the hook's current cell. *)
Definition onclose (c : Client) (reconnectAttempts : nat) (event : CloseEvent)
    (st : Hook) : Hook :=
  let st1 := setIsConnected false st in
  if negb (wasClean event) && (reconnectAttempts <? maxReconnectAttempts) then
    let newAttempts := reconnectAttempts + 1 in
    setTimeout reconnectAttempts reconnectInterval
      (setStatus ("Reconnecting (" ++ decimal newAttempts ++ "/"
                    ++ decimal maxReconnectAttempts ++ ")...")
         (setReconnectAttempts newAttempts st1))
  else if maxReconnectAttempts <=? reconnectAttempts then
    setStatus (failedStatus c (code event)) st1
  else
    setStatus (disconnectedStatus c (code event)) st1.

(** [socket.onerror] *)
Definition onerror (st : Hook) : Hook := setStatus "Connection error" st.

(** [socket.onmessage]: [data] is [None] when [JSON.parse] throws;
    [handleMessage] appends. *)
Definition onmessage (data : option Inbound) (st : Hook) : Hook :=
  match data with
  | Some d => setMessages (messages st ++ [d]) st
  | None => st
  end.

(** [sendMessage] *)
Definition sendMessage (message : Command) (st : Hook) : bool * Hook :=
  match socketRef st with
  | Some i =>
      match nth_error (sockets st) i with
      | Some s =>
          if isOpen s
          then (true, setSockets (update i (socket_send message) (sockets st)) st)
          else (false, st)
      | None => (false, st)
      end
  | None => (false, st)
  end.

(** ** Renders and the mount effect *)

(** The body of [useEffect(..., [connect])]: in a browser it sets a 100 ms
    timer that calls the current [connect] and returns a cleanup. *)
Definition runEffect (env : Env) (st : Hook) : Hook :=
  let n := reconnectAttempts st in
  match window env with
  | Some _ => setEffect (Some (n, Some (nextHandle st))) (setTimeout n 100 st)
  | None => setEffect (Some (n, None)) st
  end.

(** The cleanup the effect returned: [clearTimeout(timer)] and
    [socketRef.current.close()] when there is a current socket. *)
Definition cleanup (timer : option nat) (st : Hook) : Hook :=
  match timer with
  | Some h =>
      let st1 := clearTimeout h st in
      match socketRef st1 with
      | Some i => setSockets (update i socket_close (sockets st1)) st1
      | None => st1
      end
  | None => st
  end.

(** A render after a state change. [connect] is memoised on
    [reconnectAttempts], so the effect runs again (cleanup first) exactly
    when that cell differs from the scope the effect last ran with. *)
Definition render (env : Env) (st : Hook) : Hook :=
  match effect st with
  | Some (n, timer) =>
      if n =? reconnectAttempts st then st
      else runEffect env (cleanup timer st)
  | None => st
  end.

(** ** Events *)

Inductive Event :=
| Mounts
| TimerFires (h : nat) (clientId : string)
| Opens (i : nat) (now : Z)
| Closes (i : nat) (event : CloseEvent)
| Errors (i : nat)
| Receives (i : nat) (data : option Inbound)
| Sends (message : Command)
| Unmounts.

Definition isClosed (s : Socket) : bool :=
  match readyState s with CLOSED => true | _ => false end.

Definition isConnecting (s : Socket) : bool :=
  match readyState s with CONNECTING => true | _ => false end.

(** What one event runs. An event that cannot happen in the state (a timer
    that is not pending, an [open] on a socket that is not connecting, a
    [close] on a closed socket) runs nothing. *)
Definition handle_event (c : Client) (env : Env) (ev : Event) (st : Hook) : Hook :=
  match ev with
  | Mounts =>
      match effect st with
      | None => runEffect env st
      | Some _ => st
      end
  | TimerFires h clientId =>
      match find (fun t => handle t =? h) (timers st) with
      | Some t => connect env c (scope t) clientId (clearTimeout h st)
      | None => st
      end
  | Opens i now =>
      match nth_error (sockets st) i with
      | Some s =>
          if isConnecting s
          then onopen c i now (setSockets (update i (withReadyState OPEN) (sockets st)) st)
          else st
      | None => st
      end
  | Closes i event =>
      match nth_error (sockets st) i with
      | Some s =>
          if isClosed s then st
          else onclose c (seen s) event
                 (setSockets (update i (withReadyState CLOSED) (sockets st)) st)
      | None => st
      end
  | Errors i =>
      match nth_error (sockets st) i with
      | Some _ => onerror st
      | None => st
      end
  | Receives i data =>
      match nth_error (sockets st) i with
      | Some s => if isOpen s then onmessage data st else st
      | None => st
      end
  | Sends message => snd (sendMessage message st)
  | Unmounts =>
      match effect st with
      | Some (_, timer) => setEffect None (cleanup timer st)
      | None => st
      end
  end.

(** An event, then the render it causes. *)
Definition step (c : Client) (env : Env) (st : Hook) (ev : Event) : Hook :=
  render env (handle_event c env ev st).

Definition run (c : Client) (env : Env) (evs : list Event) (st : Hook) : Hook :=
  fold_left (step c env) evs st.

(** The reconnects an [onclose] schedules: the timers pending after it that
    were not pending before. *)
Definition scheduled (before after : Hook) : list Timer :=
  filter (fun t => nextHandle before <=? handle t) (timers after).

(** ** The connection as the view sees it *)

(** [socketRef.current], when it names a socket. *)
Definition current (st : Hook) : option Socket :=
  match socketRef st with
  | Some i => nth_error (sockets st) i
  | None => None
  end.

(** [socketRef.current && socketRef.current.readyState === WebSocket.OPEN] *)
Definition socketIsOpen (st : Hook) : bool :=
  match current st with
  | Some s => isOpen s
  | None => false
  end.

(** The states of the connection, as the design names them. *)
Inductive Connection := Idle | Connecting | Open | Reconnecting | Failed | ClosedClean.

(** The state the hook is in: a live current socket is [Connecting] or
    [Open]; otherwise the status line tells. *)
Definition connection (st : Hook) : Connection :=
  let byStatus :=
    if String.eqb (status st) "Configuration error" then Failed
    else if String.prefix "Connection failed" (status st) then Failed
    else if String.prefix "Disconnected" (status st) then ClosedClean
    else if String.prefix "Reconnecting" (status st) then Reconnecting
    else Idle in
  match current st with
  | Some s =>
      match readyState s with
      | OPEN => Open
      | CONNECTING => Connecting
      | _ => byStatus
      end
  | None => byStatus
  end.

(** ** A configured gateway that refuses every connection *)

Definition configured : Env := {|
  NEXT_PUBLIC_WS_GATEWAY := Some "wss://gateway.example/prod";
  NEXT_PUBLIC_WS_HOST := None;
  NEXT_PUBLIC_API_URL := None;
  window := Some true;
  URL_host := fun _ => None;
  accepts := fun _ => true
|}.

(** The close event of a connection that could not be made. *)
Definition dropped : CloseEvent := {| wasClean := false; code := 1006 |}.

(** The page mounts and every socket fails at once.  Timer 0 is the mount
    effect's; after each failed socket the handler sets a 3000 ms retry
    (timers 1, 3, 5, 7, 9) and the render that follows sets the effect's
    100 ms timer (2, 4, 6, 8, 10), which fires first. *)
Definition fiveFailures : list Event :=
  [ Mounts;
    TimerFires 0 "a"; Closes 0 dropped;
    TimerFires 2 "b"; Closes 1 dropped;
    TimerFires 4 "c"; Closes 2 dropped;
    TimerFires 6 "d"; Closes 3 dropped;
    TimerFires 8 "e"; Closes 4 dropped;
    TimerFires 10 "f"; Closes 5 dropped ].

(** Then the first 3000 ms retry comes due, and its socket fails too. *)
Definition staleRetry : list Event :=
  [ TimerFires 1 "g"; Closes 6 dropped ].

(** The same gateway accepts a connection. *)
Definition opened : Hook :=
  run GatewayClient configured
    [Mounts; TimerFires 0 "a"; Opens 0 1700000000000%Z] initial.

(** ** No gateway configured *)


End UseWebSocket.

(* ===================================================================== *)
(** * The [useAudioPlayback] hook                                         *)
(* ===================================================================== *)

Module UseAudioPlayback.

Local Open Scope string_scope.
Local Open Scope nat_scope.

(** A queued chunk: the [Uint8Array] built from one [audio_chunk] frame. *)
Definition Chunk := list byte.

(** What the hook needs from the browser: whether [window] is defined,
    whether [new AudioContext()] returns, and whether
    [createBuffer(1, length, sampleRate)] returns for a length and a rate
    (it throws on a zero length or a rate outside the supported range). *)
Record Browser := {
  hasWindow : bool;
  AudioContext_ok : bool;
  createBuffer_ok : nat -> Z -> bool
}.

(** The hidden [<audio>] element of the whole-clip path. *)
Record AudioElement := {
  src : string;
  paused : bool;
  currentTime : nat
}.

(** An [AudioBufferSourceNode] started by [processPcmQueue], with the
    chunk it was built from.  [rendering] holds from [source.start(0)]
    until the playback promise of that call resolves (the [ended]
    notification, or the fallback timer set slightly after the end of the
    buffer). *)
Record Source := {
  pcmData : Chunk;
  buffer : Pcm.AudioBuffer;
  rendering : bool
}.

(** The hook's two state cells, its refs, and the source nodes started so
    far, oldest first.  Each function of the hook is taken from the latest
    render, so the cells [isPlaying] and [isMuted] it reads are current. *)
Record Playback := {
  isPlaying : bool;
  isMuted : bool;
  audioContext : bool;
  audioPlayer : option AudioElement;
  pcmQueue : list Chunk;
  isReceivingPcm : bool;
  isProcessingPcm : bool;
  pcmSampleRate : Z;
  sources : list Source
}.

Definition initial : Playback := {|
  isPlaying := false;
  isMuted := false;
  audioContext := false;
  audioPlayer := None;
  pcmQueue := [];
  isReceivingPcm := false;
  isProcessingPcm := false;
  pcmSampleRate := 24000;
  sources := []
|}.

(** ** State setters *)

Definition setIsPlaying (b : bool) (st : Playback) : Playback :=
  {| isPlaying := b; isMuted := isMuted st; audioContext := audioContext st;
     audioPlayer := audioPlayer st; pcmQueue := pcmQueue st;
     isReceivingPcm := isReceivingPcm st; isProcessingPcm := isProcessingPcm st;
     pcmSampleRate := pcmSampleRate st; sources := sources st |}.

Definition setIsMuted (b : bool) (st : Playback) : Playback :=
  {| isPlaying := isPlaying st; isMuted := b; audioContext := audioContext st;
     audioPlayer := audioPlayer st; pcmQueue := pcmQueue st;
     isReceivingPcm := isReceivingPcm st; isProcessingPcm := isProcessingPcm st;
     pcmSampleRate := pcmSampleRate st; sources := sources st |}.

Definition setAudioContext (b : bool) (st : Playback) : Playback :=
  {| isPlaying := isPlaying st; isMuted := isMuted st; audioContext := b;
     audioPlayer := audioPlayer st; pcmQueue := pcmQueue st;
     isReceivingPcm := isReceivingPcm st; isProcessingPcm := isProcessingPcm st;
     pcmSampleRate := pcmSampleRate st; sources := sources st |}.

Definition setAudioPlayer (a : option AudioElement) (st : Playback) : Playback :=
  {| isPlaying := isPlaying st; isMuted := isMuted st; audioContext := audioContext st;
     audioPlayer := a; pcmQueue := pcmQueue st;
     isReceivingPcm := isReceivingPcm st; isProcessingPcm := isProcessingPcm st;
     pcmSampleRate := pcmSampleRate st; sources := sources st |}.

Definition setPcmQueue (q : list Chunk) (st : Playback) : Playback :=
  {| isPlaying := isPlaying st; isMuted := isMuted st; audioContext := audioContext st;
     audioPlayer := audioPlayer st; pcmQueue := q;
     isReceivingPcm := isReceivingPcm st; isProcessingPcm := isProcessingPcm st;
     pcmSampleRate := pcmSampleRate st; sources := sources st |}.

Definition setIsReceivingPcm (b : bool) (st : Playback) : Playback :=
  {| isPlaying := isPlaying st; isMuted := isMuted st; audioContext := audioContext st;
     audioPlayer := audioPlayer st; pcmQueue := pcmQueue st;
     isReceivingPcm := b; isProcessingPcm := isProcessingPcm st;
     pcmSampleRate := pcmSampleRate st; sources := sources st |}.

Definition setIsProcessingPcm (b : bool) (st : Playback) : Playback :=
  {| isPlaying := isPlaying st; isMuted := isMuted st; audioContext := audioContext st;
     audioPlayer := audioPlayer st; pcmQueue := pcmQueue st;
     isReceivingPcm := isReceivingPcm st; isProcessingPcm := b;
     pcmSampleRate := pcmSampleRate st; sources := sources st |}.

Definition setPcmSampleRate (r : Z) (st : Playback) : Playback :=
  {| isPlaying := isPlaying st; isMuted := isMuted st; audioContext := audioContext st;
     audioPlayer := audioPlayer st; pcmQueue := pcmQueue st;
     isReceivingPcm := isReceivingPcm st; isProcessingPcm := isProcessingPcm st;
     pcmSampleRate := r; sources := sources st |}.

Definition setSources (ss : list Source) (st : Playback) : Playback :=
  {| isPlaying := isPlaying st; isMuted := isMuted st; audioContext := audioContext st;
     audioPlayer := audioPlayer st; pcmQueue := pcmQueue st;
     isReceivingPcm := isReceivingPcm st; isProcessingPcm := isProcessingPcm st;
     pcmSampleRate := pcmSampleRate st; sources := ss |}.

(** ** What is heard *)

(** The chunks handed to the audio output so far, in the order their
    sources were started. *)
Definition rendered (st : Playback) : list Chunk := map pcmData (sources st).

(** The chunks being rendered right now. *)
Definition nowRendering (st : Playback) : list Chunk :=
  map pcmData (filter rendering (sources st)).

(** ** The hook's functions *)

Section Hook.
Variable env : Browser.

(** [initAudioContext] *)
Definition initAudioContext (st : Playback) : bool * Playback :=
  if negb (audioContext st) && hasWindow env then
    if AudioContext_ok env then (true, setAudioContext true st) else (false, st)
  else (true, st).

(** [playAudio]: the element starts on the new source; the promise of
    [play()] settles later. *)
Definition playAudio (audioDataUrl : string) (st : Playback) : Playback :=
  if isMuted st then st
  else match audioPlayer st with
       | None => st
       | Some _ =>
           setAudioPlayer
             (Some {| src := audioDataUrl; paused := false; currentTime := 0 |}) st
       end.

(** [startPcmStream]; [sampleRate] is [None] when the argument is
    [undefined] and the default applies. *)
Definition startPcmStream (sampleRate : option Z) (st : Playback) : bool * Playback :=
  if isMuted st then (false, st)
  else
    match initAudioContext st with
    | (false, st1) => (false, st1)
    | (true, st1) =>
        let rate := match sampleRate with Some r => r | None => 24000%Z end in
        (true,
         setIsPlaying true
           (setIsProcessingPcm false
              (setPcmQueue []
                 (setIsReceivingPcm true (setPcmSampleRate rate st1)))))
    end.

Inductive Converted :=
| Throws
| Returns (audioBuffer : option Pcm.AudioBuffer).

(** [convertPcmToAudioBuffer] *)
Definition convertPcmToAudioBuffer (st : Playback) (pcmData : Chunk) : Converted :=
  if negb (audioContext st) then Returns None
  else if createBuffer_ok env (Nat.div (List.length pcmData) 2) (pcmSampleRate st)
       then Returns (Some (Pcm.audioBufferOf (pcmSampleRate st) pcmData))
       else Throws.

(** [processPcmQueue] up to its [await], on the queue [queue]: either it
    returns at once, or it starts one source and waits for it, or the
    conversion throws and the [catch] goes on with the rest of the queue. *)
Fixpoint processQueue (queue : list Chunk) (st : Playback) : Playback :=
  match queue with
  | [] => setPcmQueue [] st
  | pcmData :: rest =>
      if isProcessingPcm st || negb (audioContext st) then setPcmQueue queue st
      else
        match convertPcmToAudioBuffer st pcmData with
        | Returns (Some audioBuffer) =>
            setSources
              (sources st ++
                 [{| pcmData := pcmData; buffer := audioBuffer; rendering := true |}])
              (setIsProcessingPcm true (setPcmQueue rest st))
        | Returns None => setIsProcessingPcm false (setPcmQueue rest st)
        | Throws =>
            let st1 := setIsProcessingPcm false (setPcmQueue rest st) in
            match rest with
            | [] => st1
            | _ :: _ => processQueue rest st1
            end
        end
  end.

Definition processPcmQueue (st : Playback) : Playback :=
  processQueue (pcmQueue st) st.

(** The rest of [processPcmQueue], after [await playbackPromise]. *)
Definition afterPlayback (st : Playback) : Playback :=
  let st1 := setIsProcessingPcm false st in
  match pcmQueue st1 with
  | _ :: _ => processPcmQueue st1
  | [] => if negb (isReceivingPcm st1) then setIsPlaying false st1 else st1
  end.

(** [endPcmStream] *)
Definition endPcmStream (st : Playback) : Playback :=
  let st1 := setIsReceivingPcm false st in
  match pcmQueue st1 with
  | _ :: _ => if negb (isProcessingPcm st1) then processPcmQueue st1 else st1
  | [] => st1
  end.

(** [processPcmChunk]; [bytes] is the byte array [atob] gives for
    [base64data], [None] when [atob] throws. *)
Definition processPcmChunk (bytes : option Chunk) (st : Playback) : Playback :=
  if isMuted st || negb (isReceivingPcm st) then st
  else
    match bytes with
    | None => st
    | Some b =>
        let st1 := setPcmQueue (pcmQueue st ++ [b]) st in
        if negb (isProcessingPcm st1) then processPcmQueue st1 else st1
    end.

(** [audioPlayerRef.current.pause(); audioPlayerRef.current.currentTime = 0] *)
Definition stopElement (st : Playback) : Playback :=
  match audioPlayer st with
  | Some a => setAudioPlayer (Some {| src := src a; paused := true; currentTime := 0 |}) st
  | None => st
  end.

(** [interruptPlayback] *)
Definition interruptPlayback (st : Playback) : bool * Playback :=
  if isPlaying st then
    (true,
     setIsPlaying false
       (setIsProcessingPcm false
          (setPcmQueue [] (setIsReceivingPcm false (stopElement st)))))
  else (false, st).

(** [toggleMute] *)
Definition toggleMute (st : Playback) : bool * Playback :=
  let newMuted := negb (isMuted st) in
  let st1 := setIsMuted newMuted st in
  if newMuted && isPlaying st
  then (newMuted, snd (interruptPlayback st1))
  else (newMuted, st1).

(** The mount effect: the audio element and the audio context. *)
Definition mount (st : Playback) : Playback :=
  if hasWindow env then
    snd (initAudioContext
           (setAudioPlayer (Some {| src := ""; paused := true; currentTime := 0 |}) st))
  else st.

(** ** Events *)

Inductive Event :=
| Mounts
| StartPcmStream (sampleRate : option Z)
| EndPcmStream
| ProcessPcmChunk (bytes : option Chunk)
| InterruptPlayback
| ToggleMute
| PlayAudio (audioDataUrl : string)
| PlaybackEnds (i : nat)
| ElementPlays
| ElementStops.
(* [ElementPlays] is the element's [play] event, [ElementStops] its
   [ended] or [pause] event. *)

Definition stopRendering (s : Source) : Source :=
  {| pcmData := pcmData s; buffer := buffer s; rendering := false |}.

Fixpoint update (i : nat) (f : Source -> Source) (ss : list Source) : list Source :=
  match ss, i with
  | [], _ => []
  | s :: rest, O => f s :: rest
  | s :: rest, S j => s :: update j f rest
  end.

(** One event. [PlaybackEnds i] resolves the playback promise of source [i]
    and resumes the call of [processPcmQueue] that awaits it; on a source
    whose promise has resolved already it does nothing. *)
Definition step (st : Playback) (ev : Event) : Playback :=
  match ev with
  | Mounts => mount st
  | StartPcmStream sampleRate => snd (startPcmStream sampleRate st)
  | EndPcmStream => endPcmStream st
  | ProcessPcmChunk bytes => processPcmChunk bytes st
  | InterruptPlayback => snd (interruptPlayback st)
  | ToggleMute => snd (toggleMute st)
  | PlayAudio audioDataUrl => playAudio audioDataUrl st
  | PlaybackEnds i =>
      match nth_error (sources st) i with
      | Some s =>
          if rendering s
          then afterPlayback (setSources (update i stopRendering (sources st)) st)
          else st
      | None => st
      end
  | ElementPlays =>
      match audioPlayer st with
      | Some _ => setIsPlaying true st
      | None => st
      end
  | ElementStops =>
      match audioPlayer st with
      | Some _ => setIsPlaying false st
      | None => st
      end
  end.

Definition run (evs : list Event) (st : Playback) : Playback :=
  fold_left step evs st.

(** ** Order of arrival *)

(** [Subseq l1 l2]: [l1] is [l2] with some elements left out, the others
    in the same order. *)
Inductive Subseq {A : Type} : list A -> list A -> Prop :=
| Subseq_nil : Subseq [] []
| Subseq_skip (l1 l2 : list A) (a : A) : Subseq l1 l2 -> Subseq l1 (a :: l2)
| Subseq_keep (l1 l2 : list A) (a : A) : Subseq l1 l2 -> Subseq (a :: l1) (a :: l2).

(** The chunks the events deliver, in order of arrival. *)
Fixpoint delivered (evs : list Event) : list Chunk :=
  match evs with
  | [] => []
  | ProcessPcmChunk (Some c) :: rest => c :: delivered rest
  | _ :: rest => delivered rest
  end.

(** The chunks started so far, followed by the chunks waiting. *)
Definition line (st : Playback) : list Chunk := (rendered st ++ pcmQueue st)%list.

(** ** One stream *)

(** The events of a stream once it has started: chunks, the end of the
    stream, and the ends of playbacks. *)
Definition inStream (ev : Event) : bool :=
  match ev with
  | ProcessPcmChunk _ | EndPcmStream | PlaybackEnds _ => true
  | _ => false
  end.

(** The chunk of the event, if it carries one, converts at [rate]. *)
Definition converts (rate : Z) (ev : Event) : bool :=
  match ev with
  | ProcessPcmChunk (Some c) => createBuffer_ok env (Nat.div (List.length c) 2) rate
  | _ => true
  end.

(** The chunks delivered before the stream ends, in order of arrival. *)
Fixpoint enqueued (evs : list Event) : list Chunk :=
  match evs with
  | [] => []
  | ProcessPcmChunk (Some c) :: rest => c :: enqueued rest
  | EndPcmStream :: _ => []
  | _ :: rest => enqueued rest
  end.

(** The playback of the source started last comes to its end. *)
Definition finishCurrent (st : Playback) : Playback :=
  step st (PlaybackEnds (List.length (sources st) - 1)).

Fixpoint playOut (n : nat) (st : Playback) : Playback :=
  match n with
  | O => st
  | S k => playOut k (finishCurrent st)
  end.

Definition silent (s : Source) : bool := negb (rendering s).

(** A hook that can start a stream and has nothing in flight. *)
Record Quiet (st : Playback) : Prop := {
  quiet_context : audioContext st = true;
  quiet_unmuted : isMuted st = false;
  quiet_sources : forallb silent (sources st) = true
}.

(** The source [processPcmQueue] starts for chunk [c]. *)
Definition sourceOf (st : Playback) (c : Chunk) : Source :=
  {| pcmData := c; buffer := Pcm.audioBufferOf (pcmSampleRate st) c; rendering := true |}.

(** The chunk an event adds to the queue. *)
Definition accepted (st : Playback) (ev : Event) : list Chunk :=
  match ev with
  | ProcessPcmChunk (Some c) =>
      if isMuted st || negb (isReceivingPcm st) then [] else [c]
  | _ => []
  end.

Definition receivingAfter (st : Playback) (ev : Event) : bool :=
  match ev with
  | EndPcmStream => false
  | _ => isReceivingPcm st
  end.

(** What holds of the hook all through one stream: the only source that
    may be rendering is the last one started, and it is exactly when
    [isProcessingPcmRef] is set; a queue that is not empty has a playback
    in flight ahead of it; and [isPlaying] is cleared only once the stream
    has ended and nothing is queued or in flight. *)
Record Flight (rate : Z) (st : Playback) : Prop := {
  fl_context : audioContext st = true;
  fl_unmuted : isMuted st = false;
  fl_rate : pcmSampleRate st = rate;
  fl_queue_ok :
    forallb (fun c => createBuffer_ok env (Nat.div (List.length c) 2) rate)
            (pcmQueue st) = true;
  fl_single :
    exists past cur,
      sources st = (past ++ cur)%list /\ forallb silent past = true /\
      (if isProcessingPcm st
       then exists s, cur = [s] /\ rendering s = true
       else cur = []);
  fl_busy : pcmQueue st <> [] -> isProcessingPcm st = true;
  fl_playing :
    isPlaying st = false ->
    isReceivingPcm st = false /\ pcmQueue st = [] /\ isProcessingPcm st = false
}.

End Hook.

(** ** A browser with audio, and three chunks *)

(** [createBuffer] takes any length but zero and the rates from 3000 to
    768000. *)
Definition browser : Browser := {|
  hasWindow := true;
  AudioContext_ok := true;
  createBuffer_ok := fun n rate => negb (n =? 0) && (3000 <=? rate)%Z && (rate <=? 768000)%Z
|}.

Definition chunkA : Chunk := [x01; x00; x02; x00].
Definition chunkB : Chunk := [x03; x00; x04; x00].
Definition chunkC : Chunk := [x05; x00; x06; x00].

(** A stream is interrupted while its first chunk plays, and the next
    stream delivers a chunk before that playback is over. *)
Definition bargeIn : list Event :=
  [ Mounts;
    StartPcmStream (Some 24000%Z); ProcessPcmChunk (Some chunkA);
    InterruptPlayback;
    StartPcmStream (Some 24000%Z); ProcessPcmChunk (Some chunkB) ].

(** A stream ends with a chunk still queued, and the next stream starts
    before the first chunk has played out. *)
Definition backToBack : list Event :=
  [ Mounts;
    StartPcmStream (Some 24000%Z);
    ProcessPcmChunk (Some chunkA); ProcessPcmChunk (Some chunkB);
    EndPcmStream;
    StartPcmStream (Some 24000%Z); ProcessPcmChunk (Some chunkC) ].

End UseAudioPlayback.

(* ===================================================================== *)
(** * The [useAudioRecording] hook                                        *)
(* ===================================================================== *)

Module UseAudioRecording.

Local Open Scope nat_scope.

Inductive RecorderState := inactive | recording.

(** The hook's cells and refs. [stream] is [Some live] while [streamRef]
    holds a stream, [live] telling whether its tracks still run;
    [requests] counts the calls of [getUserMedia] not yet settled. *)
Record Recording := {
  isRecording : bool;
  isListening : bool;
  mediaRecorder : option RecorderState;
  audioChunks : list (list byte);
  stream : option bool;
  requests : nat
}.

Definition initial : Recording := {|
  isRecording := false;
  isListening := false;
  mediaRecorder := None;
  audioChunks := [];
  stream := None;
  requests := 0
|}.

(** [startRecording]; [mediaDevices] says whether [navigator.mediaDevices]
    is there.  The stream arrives later, see [onStream]. *)
Definition startRecording (mediaDevices : bool) (st : Recording) : Recording :=
  if isRecording st || negb mediaDevices then st
  else {| isRecording := isRecording st; isListening := isListening st;
          mediaRecorder := mediaRecorder st; audioChunks := audioChunks st;
          stream := stream st; requests := S (requests st) |}.

(** How the [then] of [getUserMedia] fares with the recorder:
    [new MediaRecorder(stream, options)] throws (the type is not
    supported), or [mediaRecorder.start(1000)] throws, or both return. *)
Inductive RecorderOutcome := constructorThrows | startThrows | recorderStarts.

(** The [then] of [getUserMedia], up to the end of the call.  The flags,
    [audioChunksRef] and [streamRef] are set before the recorder is built,
    and [mediaRecorderRef] before it is started; a throw goes to the
    [catch] of the chain, which clears the two flags and nothing else, so
    the stream stays in [streamRef] with its tracks running.  The two
    listeners set on the recorder run on later events of the recorder,
    which are not followed here. *)
Definition onStream (outcome : RecorderOutcome) (st : Recording) : Recording :=
  match requests st with
  | O => st
  | S k =>
      match outcome with
      | constructorThrows =>
          {| isRecording := false; isListening := false;
             mediaRecorder := mediaRecorder st; audioChunks := [];
             stream := Some true; requests := k |}
      | startThrows =>
          {| isRecording := false; isListening := false;
             mediaRecorder := Some inactive; audioChunks := [];
             stream := Some true; requests := k |}
      | recorderStarts =>
          {| isRecording := true; isListening := true;
             mediaRecorder := Some recording; audioChunks := [];
             stream := Some true; requests := k |}
      end
  end.

(** The [catch] of the chain when [getUserMedia] itself is refused. *)
Definition onDenied (st : Recording) : Recording :=
  match requests st with
  | O => st
  | S k => {| isRecording := false; isListening := false;
              mediaRecorder := mediaRecorder st; audioChunks := audioChunks st;
              stream := stream st; requests := k |}
  end.

(** [stopRecording] *)
Definition stopRecording (st : Recording) : Recording :=
  {| isRecording := false; isListening := false;
     mediaRecorder := match mediaRecorder st with
                      | Some _ => Some inactive
                      | None => None
                      end;
     audioChunks := audioChunks st;
     stream := None;
     requests := requests st |}.

(** [toggleRecording] *)
Definition toggleRecording (mediaDevices : bool) (st : Recording) : Recording :=
  if isRecording st then stopRecording st else startRecording mediaDevices st.

End UseAudioRecording.

(* ===================================================================== *)
(** * The chat component                                                  *)
(* ===================================================================== *)

Module ChatInterface.
Import Wire.

Local Open Scope string_scope.

Record ChatMessage := {
  role : string;
  content : string;
  isError : bool
}.

(** The component: its three hooks and its own cells. *)
Record Chat := {
  ws : UseWebSocket.Hook;
  playback : UseAudioPlayback.Playback;
  recorder : UseAudioRecording.Recording;
  inputText : string;
  chatMessages : list ChatMessage;
  sqlQuery : string;
  queryResults : list (list (string * string));
  isActivated : bool
}.

(** ** A state monad for the component's handlers *)

Definition M (A : Type) : Type := Chat -> A * Chat.

Definition ret {A : Type} (a : A) : M A := fun st => (a, st).

Definition bind {A B : Type} (m : M A) (k : A -> M B) : M B :=
  fun st => let (a, st1) := m st in k a st1.

Definition when (b : bool) (m : M unit) : M unit :=
  if b then m else ret tt.

Declare Scope chat_scope.
Delimit Scope chat_scope with chat.
Notation "x <- m ;; k" := (bind m (fun x => k))
  (at level 61, m at next level, right associativity) : chat_scope.
Notation "m ;; k" := (bind m (fun _ => k))
  (at level 61, right associativity) : chat_scope.
Local Open Scope chat_scope.

Definition exec {A : Type} (m : M A) (st : Chat) : Chat := snd (m st).

(** Running a function of one hook inside the component. *)
Definition onWs {A : Type} (f : UseWebSocket.Hook -> A * UseWebSocket.Hook) : M A :=
  fun st =>
    let (a, w) := f (ws st) in
    (a, {| ws := w; playback := playback st; recorder := recorder st;
           inputText := inputText st; chatMessages := chatMessages st;
           sqlQuery := sqlQuery st; queryResults := queryResults st;
           isActivated := isActivated st |}).

Definition onPlayback {A : Type}
    (f : UseAudioPlayback.Playback -> A * UseAudioPlayback.Playback) : M A :=
  fun st =>
    let (a, p) := f (playback st) in
    (a, {| ws := ws st; playback := p; recorder := recorder st;
           inputText := inputText st; chatMessages := chatMessages st;
           sqlQuery := sqlQuery st; queryResults := queryResults st;
           isActivated := isActivated st |}).

Definition onRecorder
    (f : UseAudioRecording.Recording -> UseAudioRecording.Recording) : M unit :=
  fun st =>
    (tt, {| ws := ws st; playback := playback st; recorder := f (recorder st);
            inputText := inputText st; chatMessages := chatMessages st;
            sqlQuery := sqlQuery st; queryResults := queryResults st;
            isActivated := isActivated st |}).

Definition setInputText (s : string) : M unit :=
  fun st =>
    (tt, {| ws := ws st; playback := playback st; recorder := recorder st;
            inputText := s; chatMessages := chatMessages st;
            sqlQuery := sqlQuery st; queryResults := queryResults st;
            isActivated := isActivated st |}).

(** [addMessage] (the timestamp is left out). *)
Definition addMessage (r : string) (c : string) (e : bool) : M unit :=
  fun st =>
    (tt, {| ws := ws st; playback := playback st; recorder := recorder st;
            inputText := inputText st;
            chatMessages := chatMessages st
                              ++ [{| role := r; content := c; isError := e |}];
            sqlQuery := sqlQuery st; queryResults := queryResults st;
            isActivated := isActivated st |}).

(** The values the handlers of one render close over. *)
Definition isConnected : M bool := fun st => (UseWebSocket.isConnected (ws st), st).
Definition isPlaying : M bool := fun st => (UseAudioPlayback.isPlaying (playback st), st).

Definition sendMessage (message : Command) : M bool :=
  onWs (UseWebSocket.sendMessage message).

Definition interruptPlayback : M bool :=
  onPlayback UseAudioPlayback.interruptPlayback.

(** ** The handlers *)

(** [sendTextQuery] *)
Definition sendTextQuery (text : string) : M unit :=
  connected <- isConnected ;;
  playing <- isPlaying ;;
  if UseWebSocket.isEmpty text || negb connected then ret tt
  else
    when playing (interruptPlayback ;; sendMessage interrupt_speech ;; ret tt) ;;
    addMessage "user" text false ;;
    sendMessage (text_query text) ;;
    setInputText "".

(** [handleInterrupt] *)
Definition handleInterrupt : M unit :=
  playing <- isPlaying ;;
  when playing (interruptPlayback ;; sendMessage interrupt_speech ;; ret tt).

(** [handleAudioData] *)
Definition handleAudioData (base64Audio : string) : M unit :=
  connected <- isConnected ;;
  when connected (sendMessage (audio_data base64Audio) ;; ret tt).

(** The [toggleRecording] of the recording hook, which the component
    hands to the tap-to-speak button as it is. *)
Definition toggleRecording (mediaDevices : bool) : M unit :=
  onRecorder (UseAudioRecording.toggleRecording mediaDevices).

(** ** The message router *)

Definition setSqlQuery (q : string) : M unit :=
  fun st =>
    (tt, {| ws := ws st; playback := playback st; recorder := recorder st;
            inputText := inputText st; chatMessages := chatMessages st;
            sqlQuery := q; queryResults := queryResults st;
            isActivated := isActivated st |}).

Definition setQueryResults (rows : list (list (string * string))) : M unit :=
  fun st =>
    (tt, {| ws := ws st; playback := playback st; recorder := recorder st;
            inputText := inputText st; chatMessages := chatMessages st;
            sqlQuery := sqlQuery st; queryResults := rows;
            isActivated := isActivated st |}).

Definition setIsActivated (b : bool) : M unit :=
  fun st =>
    (tt, {| ws := ws st; playback := playback st; recorder := recorder st;
            inputText := inputText st; chatMessages := chatMessages st;
            sqlQuery := sqlQuery st; queryResults := queryResults st;
            isActivated := b |}).

(** The [switch (latestMessage.type)] of the effect that processes the
    most recent message, for one message. *)
Definition processMessage (env : UseAudioPlayback.Browser) (latestMessage : Inbound)
    : M unit :=
  match latestMessage with
  | transcription text => addMessage "user" text false
  | response text => addMessage "assistant" text false
  | status_text text =>
      if UseWebSocket.includes "activated" text then setIsActivated true
      else if UseWebSocket.includes "deactivated" text then setIsActivated false
      else ret tt
  | error_text text => addMessage "system" text true
  | results data => setQueryResults data
  | sql query => setSqlQuery query
  | audio_stream_start sampleRate =>
      onPlayback (UseAudioPlayback.startPcmStream env sampleRate) ;; ret tt
  | audio_stream_end =>
      onPlayback (fun p => (tt, UseAudioPlayback.endPcmStream env p))
  | audio_chunk format data =>
      if String.eqb format "pcm"
      then onPlayback (fun p => (tt, UseAudioPlayback.processPcmChunk env data p))
      else ret tt
  | unhandled _ => ret tt
  end.

(** The messages of a list, one render each. *)
Fixpoint processMessages (env : UseAudioPlayback.Browser) (ms : list Inbound)
    : M unit :=
  match ms with
  | [] => ret tt
  | m :: rest => processMessage env m ;; processMessages env rest
  end.

(** The frames written to the sockets so far, socket by socket. *)
Definition frames (st : Chat) : list (list Command) :=
  map UseWebSocket.sent (UseWebSocket.sockets (ws st)).

(** ** A spoken answer *)

(** The component once the socket is open and the audio hook has mounted. *)
Definition ready : Chat := {|
  ws := UseWebSocket.opened;
  playback := UseAudioPlayback.mount UseAudioPlayback.browser UseAudioPlayback.initial;
  recorder := UseAudioRecording.initial;
  inputText := "";
  chatMessages := [];
  sqlQuery := "";
  queryResults := [];
  isActivated := false
|}.

(** A stream of three chunks, as the frames arrive. *)
Definition threeChunks : list Inbound :=
  [ audio_stream_start (Some 24000%Z);
    audio_chunk "pcm" (Some UseAudioPlayback.chunkA);
    audio_chunk "pcm" (Some UseAudioPlayback.chunkB);
    audio_chunk "pcm" (Some UseAudioPlayback.chunkC);
    audio_stream_end ].

(** ** The assistant is speaking *)

(** The socket is open, a stream has started and its first chunk is
    playing; nothing is being recorded. *)
Definition speaking : Chat := {|
  ws := UseWebSocket.opened;
  playback :=
    UseAudioPlayback.run UseAudioPlayback.browser
      [ UseAudioPlayback.Mounts;
        UseAudioPlayback.StartPcmStream (Some 24000%Z);
        UseAudioPlayback.ProcessPcmChunk (Some UseAudioPlayback.chunkA) ]
      UseAudioPlayback.initial;
  recorder := UseAudioRecording.initial;
  inputText := "";
  chatMessages := [];
  sqlQuery := "";
  queryResults := [];
  isActivated := false
|}.

End ChatInterface.

(* ===================================================================== *)
(** * The legacy page script                                              *)
(* ===================================================================== *)

Module Legacy.
Import Wire.

(** The variables of [old_frontend/static/js/previous_app.js] that its
    [toggleRecording] and [interruptSpeech] touch; [socketOpen] stands for
    [socket && socket.readyState === WebSocket.OPEN], [wire] for the frames
    sent, [micRequests] for the pending calls of [getUserMedia]. *)
Record Page := {
  isRecording : bool;
  isListening : bool;
  isAssistantSpeaking : bool;
  socketOpen : bool;
  wire : list Command;
  micRequests : nat
}.

(** [interruptSpeech] *)
Definition interruptSpeech (p : Page) : Page :=
  if isAssistantSpeaking p then
    {| isRecording := isRecording p; isListening := isListening p;
       isAssistantSpeaking := false; socketOpen := socketOpen p;
       wire := if socketOpen p then wire p ++ [interrupt_speech] else wire p;
       micRequests := micRequests p |}
  else p.

(** [startRecording], up to the call of [getUserMedia]. *)
Definition startRecording (p : Page) : Page :=
  if isRecording p then p
  else {| isRecording := isRecording p; isListening := isListening p;
          isAssistantSpeaking := isAssistantSpeaking p; socketOpen := socketOpen p;
          wire := wire p; micRequests := S (micRequests p) |}.

(** [stopRecording] *)
Definition stopRecording (p : Page) : Page :=
  {| isRecording := false; isListening := false;
     isAssistantSpeaking := isAssistantSpeaking p; socketOpen := socketOpen p;
     wire := if socketOpen p then wire p ++ [toggle_listen false] else wire p;
     micRequests := micRequests p |}.

(** [toggleRecording] *)
Definition toggleRecording (p : Page) : Page :=
  if isRecording p then stopRecording p
  else startRecording (if isAssistantSpeaking p then interruptSpeech p else p).

(** The page while the assistant speaks over an open socket. *)
Definition speaking : Page := {|
  isRecording := false;
  isListening := false;
  isAssistantSpeaking := true;
  socketOpen := true;
  wire := [];
  micRequests := 0
|}.

(** [socket.onclose] of [connectWebSocket]: the counter is a variable of
    the page, read when the handler runs.  The result is the new counter
    and the delay of the retry it sets, if it sets one. *)
Definition onclose (event : UseWebSocket.CloseEvent) (reconnectAttempts : nat)
    : nat * option nat :=
  if negb (UseWebSocket.wasClean event)
     && (reconnectAttempts <? UseWebSocket.maxReconnectAttempts)%nat
  then (S reconnectAttempts, Some UseWebSocket.reconnectInterval)
  else (reconnectAttempts, None).

(** A sequence of close events: the final counter and the retries set. *)
Fixpoint closes (events : list UseWebSocket.CloseEvent) (reconnectAttempts : nat)
    : nat * list nat :=
  match events with
  | [] => (reconnectAttempts, [])
  | event :: rest =>
      let (n, retry) := onclose event reconnectAttempts in
      let (m, retries) := closes rest n in
      (m, match retry with Some d => d :: retries | None => retries end)
  end.

End Legacy.

(* ===================================================================== *)
(** * The socket hook over a whole session                                *)
(* ===================================================================== *)

Module Sessions.
Import Wire UseWebSocket.

Local Open Scope string_scope.
Local Open Scope nat_scope.

(** No socket but the one [socketRef] names is open or connecting. *)
Definition onlyCurrentLive (st : Hook) : Prop :=
  forall j s, nth_error (sockets st) j = Some s -> isLive s = true -> socketRef st = Some j.

(** No socket is open or connecting. *)
Definition noneLive (st : Hook) : Prop :=
  forall j s, nth_error (sockets st) j = Some s -> isLive s = false.

(** The counter, and every scope a handler, a timer or the effect holds of
    it, is at most the limit. *)
Definition withinLimit (st : Hook) : Prop :=
  reconnectAttempts st <= maxReconnectAttempts /\
  Forall (fun s => seen s <= maxReconnectAttempts) (sockets st) /\
  Forall (fun t => scope t <= maxReconnectAttempts) (timers st) /\
  (forall n timer, effect st = Some (n, timer) -> n <= maxReconnectAttempts).

(** The messages the events carry that [JSON.parse] accepts, in order of
    arrival. *)
Definition payloads (evs : list Event) : list Inbound :=
  flat_map (fun ev => match ev with Receives _ (Some d) => [d] | _ => [] end) evs.

Definition pingFirst (frames : list Command) : bool :=
  match frames with
  | ping _ :: _ => true
  | _ => false
  end.

(** A socket that has not opened has sent nothing; one that has opened has
    sent the ping before anything else. *)
Definition greeted (s : Socket) : bool :=
  match readyState s with
  | CONNECTING => match sent s with [] => true | _ => false end
  | OPEN => pingFirst (sent s)
  | _ => match sent s with [] => true | _ => pingFirst (sent s) end
  end.

Definition allGreeted (st : Hook) : Prop :=
  Forall (fun s => greeted s = true) (sockets st).

(** The first socket fails; its [onclose] has set a retry (timer 1) and
    the render after it has set the effect's timer again (timer 2). *)
Definition retryPending : list Event :=
  [ Mounts; TimerFires 0 "a"; Closes 0 dropped ].

(** Then the effect's timer fires and the second socket is connecting. *)
Definition secondSocket : list Event :=
  retryPending ++ [ TimerFires 2 "b" ].


End Sessions.

(* ===================================================================== *)
(** * The playback hook between streams                                   *)
(* ===================================================================== *)

Module Streams.
Import UseAudioPlayback.

Local Open Scope nat_scope.

Definition isToggleMute (ev : Event) : bool :=
  match ev with ToggleMute => true | _ => false end.

Definition isStartPcmStream (ev : Event) : bool :=
  match ev with StartPcmStream _ => true | _ => false end.

(** The audio element, if there is one, is not playing. *)
Definition elementPaused (st : Playback) : bool :=
  match audioPlayer st with
  | Some a => paused a
  | None => true
  end.

(** Muted, with nothing queued and the element at rest. *)
Definition Muted (st : Playback) : Prop :=
  isMuted st = true /\ pcmQueue st = [] /\ elementPaused st = true.

(** No stream is being received and nothing is queued. *)
Definition Stopped (st : Playback) : Prop :=
  isReceivingPcm st = false /\ pcmQueue st = [].

Section Skip.
Variable env : Browser.

(** The queue from its first chunk that [createBuffer] takes at [rate]. *)
Fixpoint dropUnplayable (rate : Z) (queue : list Chunk) : list Chunk :=
  match queue with
  | [] => []
  | c :: rest =>
      if createBuffer_ok env (Nat.div (List.length c) 2) rate then queue
      else dropUnplayable rate rest
  end.

End Skip.

(** A stream whose first chunk is playing. *)
Definition midStream : Playback :=
  run browser
    [ Mounts; StartPcmStream (Some 24000%Z); ProcessPcmChunk (Some chunkA) ] initial.

(** The stream goes on while the user has muted or interrupted: a chunk,
    the end of the first playback, a new stream and its first chunk. *)
Definition goesOn : list Event :=
  [ ProcessPcmChunk (Some chunkB); PlaybackEnds 0;
    StartPcmStream (Some 24000%Z); ProcessPcmChunk (Some chunkC); EndPcmStream ].

(** What is left of the stream after an interrupt: chunks and its end. *)
Definition leftover : list Event :=
  [ ProcessPcmChunk (Some chunkB); ProcessPcmChunk (Some chunkC);
    EndPcmStream; PlaybackEnds 0 ].

(** A queue, at the start of a stream, that begins with a chunk of one
    byte, which holds no sample. *)
Definition brokenQueue : Playback :=
  setPcmQueue [[x01]; chunkA; chunkB]
    (run browser [ Mounts; StartPcmStream (Some 24000%Z) ] initial).

(** What a call stops: the audio element, when it was playing and is not
    any more, or a source that was rendering and is not any more. *)
Definition stops (before after : Playback) : bool :=
  (negb (elementPaused before) && elementPaused after)
  || existsb (fun p => rendering (fst p) && negb (rendering (snd p)))
       (combine (sources before) (sources after)).

(** Nothing is heard: the element is at rest and no source is rendering. *)
Definition silence (st : Playback) : bool :=
  elementPaused st && forallb silent (sources st).

(** The only chunk of a stream has played out before the stream ends. *)
Definition playedOut : Playback :=
  run browser
    [ Mounts; StartPcmStream (Some 24000%Z);
      ProcessPcmChunk (Some chunkA); PlaybackEnds 0; EndPcmStream ] initial.

(** After the barge-in the new stream delivers a second chunk, and then
    the playback that was interrupted comes to its end. *)
Definition afterBargeIn : list Event :=
  bargeIn ++ [ ProcessPcmChunk (Some chunkC); PlaybackEnds 0 ].

End Streams.

(* ===================================================================== *)
(** * What the router does with a message                                 *)
(* ===================================================================== *)

Module Router.
Import Wire ChatInterface.

Local Open Scope string_scope.

(** A status message that sets [isActivated]. *)
Definition activates (m : Inbound) : bool :=
  match m with
  | status_text text => UseWebSocket.includes "activated" text
  | _ => false
  end.

(** The line a message adds to the transcript. *)
Definition bubble (m : Inbound) : list ChatMessage :=
  match m with
  | transcription text => [{| role := "user"; content := text; isError := false |}]
  | response text => [{| role := "assistant"; content := text; isError := false |}]
  | error_text text => [{| role := "system"; content := text; isError := true |}]
  | _ => []
  end.

(** The call of the playback hook a message leads to. *)
Definition audioEvent (m : Inbound) : list UseAudioPlayback.Event :=
  match m with
  | audio_stream_start sampleRate => [UseAudioPlayback.StartPcmStream sampleRate]
  | audio_stream_end => [UseAudioPlayback.EndPcmStream]
  | audio_chunk format data =>
      if String.eqb format "pcm" then [UseAudioPlayback.ProcessPcmChunk data] else []
  | _ => []
  end.

Definition audioEvents (ms : list Inbound) : list UseAudioPlayback.Event :=
  flat_map audioEvent ms.

End Router.

(* ===================================================================== *)
(** * The recording hook over a sequence of calls                         *)
(* ===================================================================== *)

Module Microphone.
Import UseAudioRecording.

Local Open Scope nat_scope.

(** The calls the component can make of the hook's three functions.  What
    the browser does in between (a pending [getUserMedia] settling, the
    events of a recorder) is no part of it. *)
Inductive Op := Start | Stop | Toggle.

Definition apply (mediaDevices : bool) (st : Recording) (op : Op) : Recording :=
  match op with
  | Start => startRecording mediaDevices st
  | Stop => stopRecording st
  | Toggle => toggleRecording mediaDevices st
  end.

Definition runOps (mediaDevices : bool) (ops : list Op) (st : Recording) : Recording :=
  fold_left (apply mediaDevices) ops st.

End Microphone.

(* ===================================================================== *)
(** * The legacy page script over a sequence of turns                     *)
(* ===================================================================== *)

Module LegacyTurns.
Import Wire Legacy.

Local Open Scope nat_scope.

(** [sendTextQuery] of the page script. *)
Definition sendTextQuery (text : string) (p : Page) : Page :=
  if UseWebSocket.isEmpty text then p
  else if socketOpen p then
    let p1 := if isAssistantSpeaking p then interruptSpeech p else p in
    {| isRecording := isRecording p1; isListening := isListening p1;
       isAssistantSpeaking := isAssistantSpeaking p1; socketOpen := socketOpen p1;
       wire := wire p1 ++ [text_query text];
       micRequests := micRequests p1 |}
  else p.

(** [processAudioBlob], up to [readAsArrayBuffer]. *)
Definition processAudioBlob (p : Page) : Page :=
  if isAssistantSpeaking p then interruptSpeech p else p.

(** The [onloadend] of the reader; [base64audio] is the encoded blob. *)
Definition onloadend (base64audio : string) (p : Page) : Page :=
  if socketOpen p then
    {| isRecording := isRecording p; isListening := isListening p;
       isAssistantSpeaking := isAssistantSpeaking p; socketOpen := socketOpen p;
       wire := wire p ++ [audio_data base64audio];
       micRequests := micRequests p |}
  else p.

(** [isAssistantSpeaking = b], as [playAudio] and the handlers [onplay],
    [onended] and [onpause] of the audio element assign it. *)
Definition setSpeaking (b : bool) (p : Page) : Page :=
  {| isRecording := isRecording p; isListening := isListening p;
     isAssistantSpeaking := b; socketOpen := socketOpen p;
     wire := wire p; micRequests := micRequests p |}.

(** [toggleMute]; [muted] is the value [isMuted] takes. *)
Definition toggleMute (muted : bool) (p : Page) : Page :=
  {| isRecording := isRecording p; isListening := isListening p;
     isAssistantSpeaking := if muted then false else isAssistantSpeaking p;
     socketOpen := socketOpen p;
     wire := if socketOpen p then wire p ++ [toggle_mute muted] else wire p;
     micRequests := micRequests p |}.

(** What the user does on the page, what the recorder and the file reader
    hand over, and what the audio element reports. *)
Inductive Turn :=
| Query (text : string)
| Tap
| Blob
| Loaded (base64audio : string)
| Interrupt
| Mute (muted : bool)
| Plays
| Ends.

Definition turn (p : Page) (t : Turn) : Page :=
  match t with
  | Query text => sendTextQuery text p
  | Tap => toggleRecording p
  | Blob => processAudioBlob p
  | Loaded base64audio => onloadend base64audio p
  | Interrupt => interruptSpeech p
  | Mute muted => toggleMute muted p
  | Plays => setSpeaking true p
  | Ends => setSpeaking false p
  end.

Definition turns (ts : list Turn) (p : Page) : Page := fold_left turn ts p.

Definition isInterrupt (c : Command) : bool :=
  match c with interrupt_speech => true | _ => false end.

(** The [interrupt_speech] frames among the frames sent. *)
Definition interrupts (frames : list Command) : nat :=
  List.length (filter isInterrupt frames).

Definition isPlays (t : Turn) : bool :=
  match t with Plays => true | _ => false end.

(** The times the assistant started to speak. *)
Definition plays (ts : list Turn) : nat := List.length (filter isPlays ts).

(** The [interrupt_speech] frames sent, and the one the page may yet send
    for the speech that is going on. *)
Definition owed (p : Page) : nat :=
  interrupts (wire p) + (if isAssistantSpeaking p then 1 else 0).

End LegacyTurns.

(* ===================================================================== *)
(** * Properties                                                          *)
(* ===================================================================== *)

Module PcmFacts.
Import Pcm.
Local Open Scope Z_scope.

(** A number below 256 survives the trip through a byte. *)
Lemma byte_val_of (n : Z) : 0 <= n < 256 -> byte_val (byte_of n) = n.
Proof.
  intros H. unfold byte_val, byte_of.
  destruct (Byte.of_N (Z.to_N n)) eqn:E.
  - apply Byte.to_of_N in E. rewrite E. lia.
  - apply Byte.of_N_None_iff in E. lia.
Qed.

(** The low and the high byte make up the 16-bit value again. *)
Lemma low_high (u : Z) : 0 <= u < 0x10000 ->
  Z.lor (Z.land (Z.land u 0xff) 0xff) (Z.shiftl (Z.land (Z.shiftr u 8) 0xff) 8) = u.
Proof.
  intros H.
  change 0xff with (Z.ones 8).
  rewrite !Z.land_ones by lia.
  rewrite Z.shiftr_div_pow2, Z.shiftl_mul_pow2 by lia.
  rewrite Z.mod_mod by lia.
  assert (Hq : 0 <= u / 2 ^ 8 < 2 ^ 8).
  { split. apply Z.div_pos; lia. apply Z.div_lt_upper_bound; lia. }
  rewrite (Z.mod_small (u / 2 ^ 8)) by lia.
  rewrite Z.lor_comm.
  rewrite <- Z.shiftl_mul_pow2 by lia.
  assert (Hd : Z.land (Z.shiftl (u / 2 ^ 8) 8) (u mod 2 ^ 8) = 0).
  2: { rewrite <- (Z.lxor_lor _ _ Hd), <- (Z.add_nocarry_lxor _ _ Hd).
       rewrite Z.shiftl_mul_pow2 by lia. pose proof (Z.div_mod u (2 ^ 8)). lia. }
  rewrite <- Z.land_ones by lia. apply Z.bits_inj'. intros n Hn.
  rewrite Z.land_spec, Z.bits_0.
  destruct (Z.ltb_spec n 8).
  - rewrite Z.shiftl_spec_low by lia. reflexivity.
  - rewrite Z.land_spec, Z.ones_spec_high by lia. rewrite !andb_false_r. reflexivity.
Qed.


(** The decoder reads two encoded bytes back as the unsigned 16-bit value. *)
Lemma sample_at_int16le (v : Z) (rest : list byte) :
  sample_at (int16le v ++ rest) 0 = v mod 0x10000.
Proof.
  unfold sample_at, int16le, at_offset. cbn [app nth_error Nat.add].
  assert (H : 0 <= v mod 0x10000 < 0x10000) by (apply Z.mod_pos_bound; lia).
  set (u := v mod 0x10000) in *.
  rewrite !byte_val_of.
  - apply low_high. exact H.
  - rewrite Z.shiftr_div_pow2 by lia. split.
    + apply Z.div_pos; lia.
    + apply Z.div_lt_upper_bound; lia.
  - change 0xff with (Z.ones 8). rewrite Z.land_ones by lia.
    apply Z.mod_pos_bound. lia.
Qed.

(** On a two's-complement value the decoder divides a negative sample by
    0x8000 and any other by 0x7fff. *)
Lemma to_float_wrap (v : Z) : -32768 <= v <= 32767 ->
  (to_float (v mod 0x10000) ==
   if v <? 0 then inject_Z v / inject_Z 32768 else inject_Z v / inject_Z 32767)%Q.
Proof.
  intros H. unfold to_float.
  destruct (Z.ltb_spec v 0) as [Hneg | Hpos].
  - assert (Hu : v mod 0x10000 = v + 0x10000).
    { symmetry. apply Z.mod_unique with (q := -1); lia. }
    rewrite Hu.
    destruct (Z.leb_spec 0x8000 (v + 0x10000)); [| lia].
    change 0x7fff with (Z.ones 15). rewrite Z.land_ones by lia.
    assert (Hm : (v + 0x10000) mod 2 ^ 15 = v + 0x8000).
    { symmetry. apply Z.mod_unique with (q := 1); lia. }
    rewrite Hm. rewrite inject_Z_plus. change (inject_Z 32768) with (32768 # 1)%Q.
    change (inject_Z 0x8000) with (32768 # 1)%Q. field.
  - rewrite Z.mod_small by lia.
    destruct (Z.leb_spec 0x8000 v); [lia |]. reflexivity.
Qed.

(** The reference encoder stays within 16 bits and within half a step. *)
Lemma quantize_bounds (s : Q) : in_range s ->
  -32768 <= quantize s <= 32767 /\
  (if quantize s <? 0
   then (Qabs (s * inject_Z 32768 - inject_Z (quantize s)) <= 1 # 2)%Q
   else if Qlt_le_dec s 0
        then quantize s = 0 /\ (- (1 # 65536) <= s)%Q
        else (Qabs (s * inject_Z 32767 - inject_Z (quantize s)) <= 1 # 2)%Q).
Proof.
  intros [Hlo Hhi]. unfold quantize.
  destruct (Qlt_le_dec s 0) as [Hneg | Hpos].
  - set (x := (s * inject_Z 0x8000 + (1 # 2))%Q).
    pose proof (Qfloor_le x) as Hle. pose proof (Qlt_floor x) as Hlt.
    assert (Hx1 : (inject_Z (-32768) <= x)%Q).
    { unfold x. change (inject_Z 0x8000) with (32768 # 1)%Q. change (inject_Z (-32768)) with (-32768 # 1)%Q. lra. }
    assert (Hx2 : (x < inject_Z 1)%Q).
    { unfold x. change (inject_Z 0x8000) with (32768 # 1)%Q. change (inject_Z 1) with (1 # 1)%Q. lra. }
    assert (H1 : -32768 <= Qfloor x).
    { apply Qfloor_resp_le in Hx1. rewrite Qfloor_Z in Hx1. exact Hx1. }
    assert (H2 : Qfloor x < 1).
    { rewrite Zlt_Qlt. eapply Qle_lt_trans; [exact Hle | exact Hx2]. }
    split; [lia |].
    destruct (Z.ltb_spec (Qfloor x) 0).
    + apply Qabs_Qle_condition. rewrite inject_Z_plus in Hlt.
      unfold x in *. change (inject_Z 0x8000) with (32768 # 1)%Q in *.
      change (inject_Z 32768) with (32768 # 1)%Q. change (inject_Z 1) with (1 # 1)%Q in *.
      split; lra.
    + assert (Hz : Qfloor x = 0) by lia. split; [exact Hz |].
      rewrite Hz in Hlt, Hle. unfold x in Hlt, Hle.
      change (inject_Z 0x8000) with (32768 # 1)%Q in *.
      change (inject_Z (0 + 1)) with (1 # 1)%Q in Hlt.
      change (inject_Z 0) with (0 # 1)%Q in Hle. lra.
  - set (x := (s * inject_Z 0x7fff + (1 # 2))%Q).
    pose proof (Qfloor_le x) as Hle. pose proof (Qlt_floor x) as Hlt.
    assert (Hx1 : (inject_Z 0 <= x)%Q).
    { unfold x. change (inject_Z 0x7fff) with (32767 # 1)%Q. change (inject_Z 0) with (0 # 1)%Q. lra. }
    assert (Hx2 : (x < inject_Z 32768)%Q).
    { unfold x. change (inject_Z 0x7fff) with (32767 # 1)%Q. change (inject_Z 32768) with (32768 # 1)%Q. lra. }
    assert (H1 : 0 <= Qfloor x).
    { apply Qfloor_resp_le in Hx1. rewrite Qfloor_Z in Hx1. exact Hx1. }
    assert (H2 : Qfloor x < 32768).
    { rewrite Zlt_Qlt. eapply Qle_lt_trans; [exact Hle | exact Hx2]. }
    split; [lia |].
    destruct (Z.ltb_spec (Qfloor x) 0); [lia |].
    apply Qabs_Qle_condition. rewrite inject_Z_plus in Hlt.
    unfold x in *. change (inject_Z 0x7fff) with (32767 # 1)%Q in *.
    change (inject_Z 32767) with (32767 # 1)%Q. change (inject_Z 1) with (1 # 1)%Q in *.
    split; lra.
Qed.

(** One sample, there and back. *)
Lemma roundtrip_sample (s : Q) : in_range s ->
  within (1 # 32768) s (to_float (quantize s mod 0x10000)).
Proof.
  intros Hs. destruct (quantize_bounds s Hs) as [Hv Hq].
  unfold within. rewrite (to_float_wrap _ Hv).
  destruct Hs as [Hlo Hhi].
  apply Qabs_Qle_condition.
  destruct (quantize s <? 0).
  - apply Qabs_Qle_condition in Hq.
    unfold Qdiv. change (/ inject_Z 32768)%Q with (1 # 32768)%Q.
    change (inject_Z 32768) with (32768 # 1)%Q in *.
    split; lra.
  - destruct (Qlt_le_dec s 0) as [Hneg | Hpos].
    + destruct Hq as [Hz Hs]. rewrite Hz.
      change (inject_Z 0 / inject_Z 32767)%Q with (0 # 32767)%Q.
      split; lra.
    + apply Qabs_Qle_condition in Hq.
      unfold Qdiv. change (/ inject_Z 32767)%Q with (1 # 32767)%Q.
      change (inject_Z 32767) with (32767 # 1)%Q in *.
      split; lra.
Qed.

(** The loop reads the same samples after a prefix, from the prefix's end. *)
Lemma fill_skip (pre data : list byte) (n k : nat) :
  fill (pre ++ data) n (List.length pre + k) = fill data n k.
Proof.
  revert k. induction n as [| n IH]; intros k; cbn [fill]; [reflexivity |].
  f_equal.
  - unfold sample_at, at_offset.
    replace (List.length pre + k + 1)%nat with (List.length pre + (k + 1))%nat by lia.
    rewrite !nth_error_app2 by lia.
    replace (List.length pre + k - List.length pre)%nat with k by lia.
    replace (List.length pre + (k + 1) - List.length pre)%nat with (k + 1)%nat by lia.
    reflexivity.
  - replace (List.length pre + k + 2)%nat with (List.length pre + (k + 2))%nat by lia.
    apply IH.
Qed.

Lemma fill_encode (samples : list Q) :
  fill (encodePcm16le samples) (List.length samples) 0 =
  map (fun s => to_float (quantize s mod 0x10000)) samples.
Proof.
  induction samples as [| s ss IH]; [reflexivity |].
  cbn [encodePcm16le flat_map List.length fill map].
  fold (encodePcm16le ss). f_equal.
  - rewrite sample_at_int16le. reflexivity.
  - change (0 + 2)%nat with (List.length (int16le (quantize s)) + 0)%nat.
    rewrite fill_skip. exact IH.
Qed.

Lemma encode_length (samples : list Q) :
  List.length (encodePcm16le samples) = (2 * List.length samples)%nat.
Proof.
  induction samples as [| s ss IH]; [reflexivity |].
  cbn [encodePcm16le flat_map]. fold (encodePcm16le ss).
  rewrite length_app, IH. cbn [int16le List.length]. lia.
Qed.

Lemma decode_encode (rate : Z) (samples : list Q) :
  channelData (audioBufferOf rate (encodePcm16le samples)) =
  map (fun s => to_float (quantize s mod 0x10000)) samples.
Proof.
  unfold audioBufferOf. cbn [channelData].
  rewrite encode_length.
  replace (Nat.div (2 * List.length samples) 2) with (List.length samples).
  - apply fill_encode.
  - symmetry. rewrite Nat.mul_comm. apply Nat.div_mul. discriminate.
Qed.


(** C5. Samples in [-1,1], encoded as 16-bit signed little-endian PCM by
    the reference encoder and converted back by [convertPcmToAudioBuffer],
    come back within 1/32768 of what they were.  Samples are exact
    rationals here: the rounding of the [Float32Array] store is not part
    of the statement. *)
Theorem pcm_roundtrip (env : UseAudioPlayback.Browser)
    (st : UseAudioPlayback.Playback) (samples : list Q)
    (audioBuffer : AudioBuffer) :
  Forall in_range samples ->
  UseAudioPlayback.convertPcmToAudioBuffer env st (encodePcm16le samples)
    = UseAudioPlayback.Returns (Some audioBuffer) ->
  Forall2 (within (1 # 32768)) samples (channelData audioBuffer).
Proof.
  intros Hall Hconv. unfold UseAudioPlayback.convertPcmToAudioBuffer in Hconv.
  destruct (negb (UseAudioPlayback.audioContext st)); [discriminate |].
  destruct (UseAudioPlayback.createBuffer_ok env _ _); [| discriminate].
  injection Hconv as <-. rewrite decode_encode.
  induction Hall as [| s ss Hs _ IH]; cbn [map]; constructor.
  - apply roundtrip_sample. exact Hs.
  - exact IH.
Qed.

(** The theorem at five samples, on a hook that has just mounted. *)
Lemma pcm_roundtrip_witness :
  Forall in_range probes /\
  Forall2 (within (1 # 32768)) probes
    (channelData (audioBufferOf 24000 (encodePcm16le probes))).
Proof.
  assert (H : Forall in_range probes).
  { repeat constructor; cbn; discriminate. }
  split; [exact H |].
  exact (pcm_roundtrip UseAudioPlayback.browser
           (UseAudioPlayback.mount UseAudioPlayback.browser UseAudioPlayback.initial)
           probes _ H eq_refl).
Defined.

End PcmFacts.

Module WebSocketFacts.
Import Wire UseWebSocket.
Local Open Scope string_scope.
Local Open Scope nat_scope.

Ltac hsimpl :=
  cbn [isConnected status reconnectAttempts messages socketRef sockets timers
       nextHandle effect setIsConnected setStatus setReconnectAttempts
       setMessages setSocketRef setSockets setTimers setEffect] in *.

Lemma nth_error_update_same (i : nat) (f : Socket -> Socket) (ss : list Socket) (s : Socket) :
  nth_error ss i = Some s -> nth_error (update i f ss) i = Some (f s).
Proof.
  revert i. induction ss as [| x ss IH]; intros [| i] H; cbn in *; try discriminate.
  - injection H as ->. reflexivity.
  - apply IH. exact H.
Qed.

Lemma nth_error_update_other (i j : nat) (f : Socket -> Socket) (ss : list Socket) :
  j <> i -> nth_error (update i f ss) j = nth_error ss j.
Proof.
  revert i j. induction ss as [| x ss IH]; intros [| i] [| j] H; cbn; try reflexivity.
  - contradiction.
  - apply IH. lia.
Qed.

(** C4. [sendMessage] writes to the socket only when the current socket is
    open: then it returns true and exactly one frame, the message, is
    appended to that socket and to no other; in every other case (no
    socket, connecting, closing, closed) it returns false and the hook is
    left as it was, so nothing is kept for a later delivery. *)
Theorem sendMessage_needs_open_socket (message : Command) (st : Hook) :
  if socketIsOpen st
  then exists i s,
         socketRef st = Some i /\ nth_error (sockets st) i = Some s /\
         readyState s = OPEN /\
         fst (sendMessage message st) = true /\
         let st' := snd (sendMessage message st) in
         (exists s', nth_error (sockets st') i = Some s' /\
                     sent s' = (sent s ++ [message])%list /\
                     url s' = url s /\ readyState s' = OPEN) /\
         (forall j, j <> i -> nth_error (sockets st') j = nth_error (sockets st) j) /\
         st' = setSockets (sockets st') st
  else sendMessage message st = (false, st).
Proof.
  unfold socketIsOpen, current, sendMessage.
  destruct (socketRef st) as [i |]; [| reflexivity].
  destruct (nth_error (sockets st) i) as [s |] eqn:E; [| reflexivity].
  destruct (isOpen s) eqn:Eo; [| reflexivity].
  assert (Hr : readyState s = OPEN).
  { unfold isOpen in Eo. destruct (readyState s); try discriminate. reflexivity. }
  exists i, s. repeat split; try assumption.
  - cbn [snd]. hsimpl. exists (socket_send message s).
    split; [apply nth_error_update_same; exact E |].
    repeat split. exact Hr.
  - intros j Hj. cbn [snd]. hsimpl. apply nth_error_update_other. exact Hj.
Qed.


Section Unconfigured.
Variable env : Env.
Hypothesis unset : isEmpty (orEmpty (NEXT_PUBLIC_WS_GATEWAY env)) = true.










End Unconfigured.






Lemma closeReason_known (code : Z) :
  (1000 <= code <= 1015)%Z -> code <> 1004%Z -> closeReason code <> "Unknown reason".
Proof.
  intros Hr Hne.
  assert (Hk : exists k : nat, code = (1000 + Z.of_nat k)%Z /\ k <= 15).
  { exists (Z.to_nat (code - 1000)). lia. }
  destruct Hk as (k & -> & Hk).
  do 16 (destruct k as [| k]; [cbn; first [discriminate | lia] |]).
  lia.
Qed.



(** C9, as the code has it.  The gateway variant has a table of reasons:
    every close code from 1000 to 1015 except 1004 is in it, and 1004,
    like any code outside the table, reads "Unknown reason"; the reason is
    shown in the status when no retry is set.  The host variant never
    reads the close code: its status is "Connection failed" or
    "Disconnected" whatever the code.  In both, whether a retry is set
    depends on the [wasClean] flag of the event and the attempts the
    handler sees, never on the close code. *)
Theorem onclose_reason_and_clean_flag (c : Client) (n : nat) (event : CloseEvent)
    (st : Hook) :
  let st' := onclose c n event st in
  let retry := negb (wasClean event) && (n <? maxReconnectAttempts) in
  ((1000 <= code event <= 1015)%Z -> code event <> 1004%Z ->
   closeReason (code event) <> "Unknown reason") /\
  closeReason 1004 = "Unknown reason" /\
  timers st' =
    (timers st ++
     (if retry
      then [{| handle := nextHandle st; delay := reconnectInterval; scope := n |}]
      else []))%list /\
  (retry = true ->
   status st' =
     "Reconnecting (" ++ decimal (n + 1) ++ "/" ++ decimal maxReconnectAttempts ++ ")...") /\
  (retry = false ->
   status st' =
     match c with
     | GatewayClient =>
         (if maxReconnectAttempts <=? n then "Connection failed (" else "Disconnected (")
           ++ closeReason (code event) ++ ")"
     | HostClient =>
         if maxReconnectAttempts <=? n then "Connection failed" else "Disconnected"
     end).
Proof.
  cbn zeta. split; [apply closeReason_known |]. split; [reflexivity |].
  unfold onclose.
  destruct (negb (wasClean event) && (n <? maxReconnectAttempts)) eqn:E.
  - split; [reflexivity |]. split; [reflexivity | discriminate].
  - split; [destruct (maxReconnectAttempts <=? n); cbn; rewrite app_nil_r; reflexivity |].
    split; [discriminate |].
    intros _. destruct c; destruct (maxReconnectAttempts <=? n); reflexivity.
Qed.

(** C9, the counterexample: a close with code 1001 that the browser reports
    as clean sets no retry, exactly as a close with code 1000 would. *)
Lemma going_away_counts_as_clean :
  let event := {| wasClean := true; code := 1001 |} in
  let st' := step GatewayClient configured opened (Closes 0 event) in
  (1000 <= code event <= 1015)%Z /\ code event <> 1000%Z /\
  timers st' = timers opened /\
  status st' = "Disconnected (Going away)" /\
  connection st' = ClosedClean.
Proof.
  cbn zeta. repeat split; try (cbn; lia); vm_compute; reflexivity.
Qed.

(** C1. The gateway refuses five connections in a row: the counter is 5 and
    the status says the connection failed.  Then the retry timer set by
    the first failure fires.  Its [connect] and the handlers it installs
    still see [reconnectAttempts = 0], so the next failure sets the
    counter back to 1 and schedules another retry. *)
Theorem stale_retry_reconnects_past_limit :
  let st := run GatewayClient configured fiveFailures initial in
  let st' := run GatewayClient configured staleRetry st in
  (reconnectAttempts st = maxReconnectAttempts /\
   status st = "Connection failed (Abnormal closure - check server logs)" /\
   connection st = Failed) /\
  (option_map seen (nth_error (sockets st') 6) = Some 0 /\
   reconnectAttempts st' = 1 /\
   status st' = "Reconnecting (1/5)..." /\
   connection st' = Reconnecting /\
   scheduled st st' =
     [ {| handle := 11; delay := reconnectInterval; scope := 0 |};
       {| handle := 12; delay := 100; scope := 1 |} ]).
Proof.
  cbn zeta. repeat split; vm_compute; reflexivity.
Qed.

(** X1. What [onclose] does, given the attempts [n] it sees: a retry after
    [reconnectInterval] exactly when the close was not clean and [n] is
    below the limit, and then the counter becomes [n + 1]. *)
Theorem onclose_decides_on_its_scope (c : Client) (n : nat) (event : CloseEvent) (st : Hook) :
  let st' := onclose c n event st in
  let retry := negb (wasClean event) && (n <? maxReconnectAttempts) in
  isConnected st' = false /\
  reconnectAttempts st' = (if retry then n + 1 else reconnectAttempts st) /\
  timers st' =
    (timers st ++
     (if retry
      then [{| handle := nextHandle st; delay := reconnectInterval; scope := n |}]
      else []))%list /\
  sockets st' = sockets st /\ socketRef st' = socketRef st.
Proof.
  cbn zeta. unfold onclose.
  destruct (negb (wasClean event) && (n <? maxReconnectAttempts)).
  - repeat split.
  - destruct (maxReconnectAttempts <=? n); cbn; rewrite app_nil_r; repeat split.
Qed.

(** X2. The legacy page script reads the counter when the handler runs: over
    any sequence of close events the counter only grows, never passes the
    limit, and every retry waits [reconnectInterval]. *)
Theorem legacy_closes_bounded (events : list CloseEvent) (n0 : nat) :
  n0 <= maxReconnectAttempts ->
  let (n, retries) := Legacy.closes events n0 in
  n0 <= n <= maxReconnectAttempts /\
  List.length retries = n - n0 /\
  Forall (fun d => d = reconnectInterval) retries.
Proof.
  revert n0. induction events as [| event rest IH]; intros n0 Hn0.
  - cbn. repeat split; try lia. constructor.
  - cbn [Legacy.closes]. unfold Legacy.onclose.
    destruct (negb (wasClean event) && (n0 <? maxReconnectAttempts)) eqn:E.
    + apply andb_prop in E as [_ Hlt]. apply Nat.ltb_lt in Hlt.
      specialize (IH (S n0) Hlt).
      destruct (Legacy.closes rest (S n0)) as [m retries].
      destruct IH as (H1 & H2 & H3). repeat split; try lia.
      * cbn [List.length]. lia.
      * constructor; [reflexivity | exact H3].
    + specialize (IH n0 Hn0).
      destruct (Legacy.closes rest n0) as [m retries]. exact IH.
Qed.

(** The legacy bound, at six unclean closes in a row. *)
Lemma legacy_closes_bounded_witness :
  0 <= maxReconnectAttempts /\
  (let (n, retries) := Legacy.closes (repeat dropped 6) 0 in
   0 <= n <= maxReconnectAttempts /\
   List.length retries = n - 0 /\
   Forall (fun d => d = reconnectInterval) retries).
Proof.
  split; [apply Nat.le_0_l |].
  apply legacy_closes_bounded. apply Nat.le_0_l.
Defined.

End WebSocketFacts.

Module PlaybackFacts.
Import UseAudioPlayback.
Local Open Scope nat_scope.

(** C3. [interruptPlayback] goes by [isPlaying] alone and never touches a
    source.  On a hook that is playing it returns true, empties the queue,
    clears the receiving, processing and playing flags and leaves the
    audio element paused; on any other it returns false and changes
    nothing.  So while the first chunk of a stream is rendering it returns
    true although the call stops nothing, and the chunk goes on rendering;
    called again it returns false with the chunk still rendering; and on a
    hook left playing with nothing to hear it returns true. *)
Theorem interruptPlayback_stops_no_source (st : Playback) :
  let st' := snd (interruptPlayback st) in
  let spoken := snd (interruptPlayback Streams.midStream) in
  (fst (interruptPlayback st) = isPlaying st /\ sources st' = sources st /\
   (if isPlaying st
    then pcmQueue st' = [] /\ isReceivingPcm st' = false /\
         isPlaying st' = false /\ isProcessingPcm st' = false /\
         Streams.elementPaused st' = true
    else st' = st)) /\
  (fst (interruptPlayback Streams.midStream) = true /\
   Streams.stops Streams.midStream spoken = false /\
   nowRendering Streams.midStream = [chunkA] /\ nowRendering spoken = [chunkA] /\
   fst (interruptPlayback spoken) = false) /\
  (fst (interruptPlayback Streams.playedOut) = true /\
   Streams.silence Streams.playedOut = true).
Proof.
  cbn zeta. split; [| split; repeat split; vm_compute; reflexivity].
  unfold interruptPlayback, Streams.elementPaused, stopElement.
  destruct (isPlaying st) eqn:E; cbn [fst snd].
  - split; [reflexivity |].
    destruct (audioPlayer st) eqn:Ea; cbn; rewrite ?Ea; repeat split; reflexivity.
  - repeat split; reflexivity.
Qed.

(** C10. A chunk that arrives while the hook is muted, or while no stream
    is being received, is dropped: [processPcmChunk] returns the hook as
    it was.  [startPcmStream] on a muted hook returns false and changes
    nothing either. *)
Theorem chunk_dropped_unless_receiving (env : Browser) (bytes : option Chunk)
    (sampleRate : option Z) (st : Playback) :
  (isMuted st = true \/ isReceivingPcm st = false ->
   processPcmChunk env bytes st = st) /\
  (isMuted st = true -> startPcmStream env sampleRate st = (false, st)).
Proof.
  split.
  - intros [H | H]; unfold processPcmChunk; rewrite H; [reflexivity |].
    rewrite orb_true_r. reflexivity.
  - intros H. unfold startPcmStream. rewrite H. reflexivity.
Qed.

(** C2. Two chunks render at once.  [interruptPlayback] and
    [startPcmStream] clear [isProcessingPcmRef] but leave the source that
    is playing alone, so the first chunk of the next stream is started
    on top of it. *)
Theorem restart_overlaps_playback :
  let st1 := run browser bargeIn initial in
  let st2 := run browser backToBack initial in
  (nowRendering st1 = [chunkA; chunkB] /\ isProcessingPcm st1 = true) /\
  (nowRendering st2 = [chunkA; chunkC] /\ pcmQueue st2 = []).
Proof.
  cbn zeta. repeat split; vm_compute; reflexivity.
Qed.

Ltac psimpl :=
  cbn [isPlaying isMuted audioContext audioPlayer pcmQueue isReceivingPcm
       isProcessingPcm pcmSampleRate sources setIsPlaying setIsMuted
       setAudioContext setAudioPlayer setPcmQueue setIsReceivingPcm
       setIsProcessingPcm setPcmSampleRate setSources] in *.

Section Order.
Context {A : Type}.

Lemma Subseq_refl (l : list A) : Subseq l l.
Proof. induction l; [apply Subseq_nil | apply Subseq_keep; assumption]. Qed.

Lemma Subseq_trans (l1 l2 l3 : list A) : Subseq l1 l2 -> Subseq l2 l3 -> Subseq l1 l3.
Proof.
  intros H12 H23. revert l1 H12.
  induction H23 as [| l2 l3 a H IH | l2 l3 a H IH]; intros l1 H12.
  - exact H12.
  - apply Subseq_skip. apply IH. exact H12.
  - inversion H12; subst.
    + apply Subseq_skip. apply IH. assumption.
    + apply Subseq_keep. apply IH. assumption.
Qed.

Lemma Subseq_app_tail (l1 l2 t : list A) : Subseq l1 l2 -> Subseq (l1 ++ t) (l2 ++ t).
Proof.
  induction 1; cbn [app].
  - apply Subseq_refl.
  - apply Subseq_skip. assumption.
  - apply Subseq_keep. assumption.
Qed.

Lemma Subseq_prefix (l t : list A) : Subseq l (l ++ t).
Proof.
  induction l as [| a l IH]; cbn [app].
  - induction t; [apply Subseq_nil | apply Subseq_skip; assumption].
  - apply Subseq_keep. exact IH.
Qed.

Lemma Subseq_drop (l t : list A) (a : A) : Subseq (l ++ t) (l ++ a :: t).
Proof.
  induction l as [| b l IH]; cbn [app].
  - apply Subseq_skip. apply Subseq_refl.
  - apply Subseq_keep. exact IH.
Qed.
End Order.

Section Fifo.
Variable env : Browser.

Lemma processQueue_line (q : list Chunk) (st : Playback) :
  Subseq (line (processQueue env q st)) (rendered st ++ q).
Proof.
  revert st. induction q as [| c rest IH]; intros st; cbn [processQueue].
  - unfold line, rendered. psimpl. apply Subseq_refl.
  - destruct (isProcessingPcm st || negb (audioContext st)).
    + unfold line, rendered. psimpl. apply Subseq_refl.
    + destruct (convertPcmToAudioBuffer env st c) as [| [b |]].
      * destruct rest as [| c' rest'].
        -- unfold line, rendered. psimpl. apply Subseq_drop.
        -- eapply Subseq_trans; [apply IH |].
           unfold rendered. psimpl. apply Subseq_drop.
      * unfold line, rendered. psimpl. rewrite map_app, <- app_assoc.
        cbn [map pcmData app]. apply Subseq_refl.
      * unfold line, rendered. psimpl. apply Subseq_drop.
Qed.

Lemma processPcmQueue_line (st : Playback) : Subseq (line (processPcmQueue env st)) (line st).
Proof. unfold processPcmQueue. apply processQueue_line. Qed.

Lemma update_pcmData (i : nat) (ss : list Source) :
  map pcmData (update i stopRendering ss) = map pcmData ss.
Proof.
  revert i. induction ss as [| s ss IH]; intros [| i]; cbn; try reflexivity.
  rewrite IH. reflexivity.
Qed.

Lemma step_line (st : Playback) (ev : Event) :
  Subseq (line (step env st ev)) (line st ++ delivered [ev]).
Proof.
  assert (Hsame : forall st', line st' = line st ->
                  Subseq (line st') (line st ++ [])).
  { intros st' ->. rewrite app_nil_r. apply Subseq_refl. }
  assert (Hcut : forall st', rendered st' = rendered st -> pcmQueue st' = [] ->
                 Subseq (line st') (line st ++ [])).
  { intros st' Hr Hq. unfold line. rewrite Hr, Hq, !app_nil_r. apply Subseq_prefix. }
  destruct ev; cbn [step delivered].
  - (* Mounts *)
    apply Hsame. unfold mount, initAudioContext. psimpl.
    destruct (hasWindow env); [| reflexivity].
    destruct (negb (audioContext st) && true); [| reflexivity].
    destruct (AudioContext_ok env); reflexivity.
  - (* StartPcmStream *)
    unfold startPcmStream, initAudioContext.
    destruct (isMuted st); [apply Hsame; reflexivity |].
    destruct (negb (audioContext st) && hasWindow env).
    + destruct (AudioContext_ok env); [apply Hcut; reflexivity | apply Hsame; reflexivity].
    + apply Hcut; reflexivity.
  - (* EndPcmStream *)
    rewrite app_nil_r. unfold endPcmStream. psimpl.
    destruct (pcmQueue st) eqn:Eq.
    + unfold line, rendered. psimpl. rewrite Eq. apply Subseq_refl.
    + destruct (negb (isProcessingPcm st)).
      * eapply Subseq_trans; [apply processPcmQueue_line |].
        unfold line, rendered. psimpl. rewrite Eq. apply Subseq_refl.
      * unfold line, rendered. psimpl. rewrite Eq. apply Subseq_refl.
  - (* ProcessPcmChunk *)
    unfold processPcmChunk.
    destruct bytes as [c |].
    + cbn [delivered].
      destruct (isMuted st || negb (isReceivingPcm st)).
      * apply Subseq_prefix.
      * psimpl. destruct (negb (isProcessingPcm st)).
        -- eapply Subseq_trans; [apply processPcmQueue_line |].
           unfold line, rendered. psimpl. rewrite app_assoc. apply Subseq_refl.
        -- unfold line, rendered. psimpl. rewrite app_assoc. apply Subseq_refl.
    + apply Hsame. destruct (isMuted st || negb (isReceivingPcm st)); reflexivity.
  - (* InterruptPlayback *)
    unfold interruptPlayback. destruct (isPlaying st); [| apply Hsame; reflexivity].
    apply Hcut; [| reflexivity]. unfold rendered, stopElement.
    destruct (audioPlayer st); reflexivity.
  - (* ToggleMute *)
    unfold toggleMute, interruptPlayback. psimpl.
    destruct (negb (isMuted st) && isPlaying st) eqn:E; [| apply Hsame; reflexivity].
    apply andb_prop in E as [_ ->]. apply Hcut; [| reflexivity].
    unfold rendered, stopElement. psimpl. destruct (audioPlayer st); reflexivity.
  - (* PlayAudio *)
    apply Hsame. unfold playAudio. destruct (isMuted st); [reflexivity |].
    destruct (audioPlayer st); reflexivity.
  - (* PlaybackEnds *)
    destruct (nth_error (sources st) i) as [s |]; [| apply Hsame; reflexivity].
    destruct (rendering s); [| apply Hsame; reflexivity].
    rewrite app_nil_r. unfold afterPlayback. psimpl.
    assert (Hl : forall b,
               line (setIsProcessingPcm b (setSources (update i stopRendering (sources st)) st))
               = line st).
    { intros b. unfold line, rendered. psimpl. rewrite update_pcmData. reflexivity. }
    destruct (pcmQueue st) eqn:Eq.
    + destruct (negb (isReceivingPcm st)).
      * rewrite <- (Hl false). unfold line, rendered. psimpl. apply Subseq_refl.
      * rewrite <- (Hl false). apply Subseq_refl.
    + eapply Subseq_trans; [apply processPcmQueue_line |].
      rewrite Hl. apply Subseq_refl.
  - apply Hsame. destruct (audioPlayer st); reflexivity.
  - apply Hsame. destruct (audioPlayer st); reflexivity.
Qed.

Lemma delivered_app (evs1 evs2 : list Event) :
  delivered (evs1 ++ evs2) = delivered evs1 ++ delivered evs2.
Proof.
  induction evs1 as [| ev evs1 IH]; [reflexivity |].
  cbn [app delivered]. destruct ev; try exact IH.
  destruct bytes; [| exact IH]. cbn [app]. rewrite IH. reflexivity.
Qed.

Lemma run_line (evs : list Event) (st : Playback) :
  Subseq (line (run env evs st)) (line st ++ delivered evs).
Proof.
  revert st. induction evs as [| ev evs IH]; intros st.
  - cbn. rewrite app_nil_r. apply Subseq_refl.
  - unfold run in *. cbn [fold_left].
    eapply Subseq_trans; [apply IH |].
    change (ev :: evs) with ([ev] ++ evs). rewrite delivered_app, app_assoc.
    apply Subseq_app_tail. apply step_line.
Qed.

(** X4. Whatever happens (streams starting and ending, interrupts, mutes,
    chunks that fail to convert), the chunks that are started are chunks
    that arrived, in their order of arrival. *)
Theorem chunks_start_in_arrival_order (evs : list Event) :
  Subseq (rendered (run env evs initial)) (delivered evs).
Proof.
  eapply Subseq_trans; [| apply (run_line evs initial)].
  apply Subseq_prefix.
Qed.
End Fifo.

Section Stream.
Variable env : Browser.


Lemma processQueue_starts (st : Playback) (c : Chunk) (rest : list Chunk) :
  audioContext st = true -> isProcessingPcm st = false ->
  createBuffer_ok env (Nat.div (List.length c) 2) (pcmSampleRate st) = true ->
  processQueue env (c :: rest) st =
  setSources (sources st ++ [sourceOf st c]) (setIsProcessingPcm true (setPcmQueue rest st)).
Proof.
  intros Hctx Hproc Hok. cbn [processQueue]. rewrite Hproc, Hctx. cbn [negb orb].
  unfold convertPcmToAudioBuffer. rewrite Hctx, Hok. reflexivity.
Qed.

Lemma update_at_end (past : list Source) (s : Source) (f : Source -> Source) :
  update (List.length past) f (past ++ [s]) = past ++ [f s].
Proof.
  induction past as [| p past IH]; [reflexivity |].
  cbn [List.length app update]. rewrite IH. reflexivity.
Qed.

Lemma rendering_index (past : list Source) (s x : Source) (i : nat) :
  forallb silent past = true ->
  nth_error (past ++ [s]) i = Some x -> rendering x = true ->
  i = List.length past /\ x = s.
Proof.
  intros Hpast Hnth Hx.
  destruct (Nat.lt_ge_cases i (List.length past)) as [Hlt | Hge].
  - rewrite nth_error_app1 in Hnth by exact Hlt.
    apply nth_error_In in Hnth.
    rewrite forallb_forall in Hpast. specialize (Hpast x Hnth).
    unfold silent in Hpast. rewrite Hx in Hpast. discriminate.
  - rewrite nth_error_app2 in Hnth by exact Hge.
    destruct (i - List.length past) as [| j] eqn:E.
    + cbn in Hnth. injection Hnth as <-. split; [lia | reflexivity].
    + cbn in Hnth. destruct j; discriminate.
Qed.

Lemma silent_filter (past : list Source) :
  forallb silent past = true -> filter rendering past = [].
Proof.
  induction past as [| p past IH]; intros H; [reflexivity |].
  cbn [forallb] in H. apply andb_prop in H as [Hp Hrest].
  cbn [filter]. unfold silent in Hp. destruct (rendering p); [discriminate |].
  exact (IH Hrest).
Qed.

Lemma silent_index (past : list Source) (x : Source) (i : nat) :
  forallb silent past = true -> nth_error past i = Some x -> rendering x = false.
Proof.
  intros Hpast Hnth. apply nth_error_In in Hnth.
  rewrite forallb_forall in Hpast. specialize (Hpast x Hnth).
  unfold silent in Hpast. destruct (rendering x); [discriminate | reflexivity].
Qed.

Lemma forallb_snoc {A : Type} (f : A -> bool) (l : list A) (a : A) :
  forallb f (l ++ [a]) = forallb f l && f a.
Proof.
  rewrite forallb_app. cbn. rewrite andb_true_r. reflexivity.
Qed.

Lemma playbackEnds_idle (rate : Z) (st : Playback) (i : nat) :
  Flight env rate st -> isProcessingPcm st = false ->
  step env st (PlaybackEnds i) = st.
Proof.
  intros F Hp. destruct (fl_single _ _ _ F) as (past & cur & Hs & Hpast & Hcur).
  rewrite Hp in Hcur. subst cur. rewrite app_nil_r in Hs.
  cbn [step]. destruct (nth_error (sources st) i) as [x |] eqn:E; [| reflexivity].
  rewrite Hs in E. rewrite (silent_index _ _ _ Hpast E). reflexivity.
Qed.

Lemma playbackEnds_busy (rate : Z) (st : Playback) (i : nat) :
  Flight env rate st -> isProcessingPcm st = true ->
  exists past s,
    sources st = past ++ [s] /\ forallb silent past = true /\ rendering s = true /\
    (i <> List.length past -> step env st (PlaybackEnds i) = st) /\
    step env st (PlaybackEnds (List.length past)) =
    afterPlayback env (setSources (past ++ [stopRendering s]) st).
Proof.
  intros F Hp. destruct (fl_single _ _ _ F) as (past & cur & Hs & Hpast & Hcur).
  rewrite Hp in Hcur. destruct Hcur as (s & -> & Hr).
  exists past, s. repeat split; try assumption.
  - intros Hi. cbn [step].
    destruct (nth_error (sources st) i) as [x |] eqn:E; [| reflexivity].
    destruct (rendering x) eqn:Ex; [| reflexivity].
    rewrite Hs in E. destruct (rendering_index _ _ _ _ Hpast E Ex). contradiction.
  - cbn [step]. rewrite Hs.
    rewrite nth_error_app2 by lia. rewrite Nat.sub_diag. cbn [nth_error].
    rewrite Hr. rewrite update_at_end. reflexivity.
Qed.

Lemma afterPlayback_flight (rate : Z) (st : Playback) (past : list Source) (s : Source) :
  Flight env rate st -> isProcessingPcm st = true ->
  sources st = past ++ [s] -> forallb silent past = true ->
  let st' := afterPlayback env (setSources (past ++ [stopRendering s]) st) in
  Flight env rate st' /\
  rendered st' ++ pcmQueue st' = rendered st ++ pcmQueue st /\
  isReceivingPcm st' = isReceivingPcm st /\
  match pcmQueue st with
  | c :: rest =>
      pcmQueue st' = rest /\ isProcessingPcm st' = true /\ isPlaying st' = isPlaying st /\
      sources st' = (past ++ [stopRendering s]) ++ [sourceOf st c]
  | [] =>
      pcmQueue st' = [] /\ isProcessingPcm st' = false /\
      isPlaying st' = (isPlaying st && isReceivingPcm st) /\
      sources st' = past ++ [stopRendering s]
  end.
Proof.
  intros F Hp Hs Hpast st'.
  assert (Hsil : forallb silent (past ++ [stopRendering s]) = true).
  { rewrite forallb_snoc, Hpast. reflexivity. }
  destruct F as [Hctx Hmute Hrate Hok Hsingle Hbusy Hplay].
  subst st'. unfold afterPlayback. psimpl.
  destruct (pcmQueue st) as [| c rest] eqn:Eq.
  - destruct (isReceivingPcm st) eqn:Er; cbn [negb]; psimpl; rewrite ?Eq, ?Er.
    + split; [constructor; psimpl; rewrite ?Eq, ?Er;
              try assumption; try reflexivity; try congruence |].
      * exists (past ++ [stopRendering s]), []. rewrite app_nil_r. auto.
      * intros H. destruct (Hplay H) as (H1 & _). discriminate.
      * unfold rendered. psimpl. rewrite Hs, !map_app, ?andb_true_r.
        repeat split; reflexivity.
    + split; [constructor; psimpl; rewrite ?Eq, ?Er;
              try assumption; try reflexivity; try congruence |].
      * exists (past ++ [stopRendering s]), []. rewrite app_nil_r. auto.
      * intros _. auto.
      * unfold rendered. psimpl. rewrite Hs, !map_app, ?andb_false_r.
        repeat split; reflexivity.
  - cbn [forallb] in Hok. apply andb_prop in Hok as [Hc Hrest].
    unfold processPcmQueue. psimpl. rewrite Eq.
    rewrite processQueue_starts; psimpl; try assumption; try reflexivity.
    2: { rewrite Hrate. exact Hc. }
    assert (Hplaying : isPlaying st = true).
    { destruct (isPlaying st) eqn:E; [reflexivity |].
      destruct (Hplay eq_refl) as (_ & _ & H). congruence. }
    split; [constructor; psimpl; try assumption; try reflexivity; try congruence |].
    + exists (past ++ [stopRendering s]), [sourceOf st c]. repeat split; auto.
      exists (sourceOf st c). split; reflexivity.
    + unfold rendered. psimpl. rewrite Hs, !map_app. cbn [map sourceOf pcmData].
      rewrite <- !app_assoc. cbn [app]. repeat split; reflexivity.
Qed.

Lemma flight_playing (rate : Z) (st : Playback) :
  Flight env rate st -> isProcessingPcm st = true -> isPlaying st = true.
Proof.
  intros F Hp. destruct (isPlaying st) eqn:E; [reflexivity |].
  destruct (fl_playing _ _ _ F E) as (_ & _ & H). congruence.
Qed.

Lemma flight_single_flight (rate : Z) (st : Playback) :
  Flight env rate st -> List.length (nowRendering st) <= 1.
Proof.
  intros F. destruct (fl_single _ _ _ F) as (past & cur & Hs & Hpast & Hcur).
  unfold nowRendering. rewrite Hs, filter_app, map_app, length_app.
  rewrite (silent_filter _ Hpast). cbn [map List.length Nat.add].
  destruct (isProcessingPcm st).
  - destruct Hcur as (s & -> & Hr). cbn [filter]. rewrite Hr. cbn. lia.
  - subst cur. cbn. lia.
Qed.

Lemma flight_step (rate : Z) (st : Playback) (ev : Event) :
  Flight env rate st -> inStream ev = true -> converts env rate ev = true ->
  Flight env rate (step env st ev) /\
  rendered (step env st ev) ++ pcmQueue (step env st ev) =
  (rendered st ++ pcmQueue st) ++ accepted st ev /\
  isReceivingPcm (step env st ev) = receivingAfter st ev.
Proof.
  intros F Hin Hconv. destruct ev; try discriminate; cbn [step accepted receivingAfter].
  - (* EndPcmStream *)
    assert (Hend : endPcmStream env st = setIsReceivingPcm false st).
    { unfold endPcmStream. psimpl. destruct (pcmQueue st) eqn:Eq; [reflexivity |].
      rewrite (fl_busy _ _ _ F) by congruence. reflexivity. }
    rewrite Hend, app_nil_r. split; [| split; reflexivity].
    destruct F as [Hctx Hmute Hrate Hok Hsingle Hbusy Hplay].
    constructor; psimpl; try assumption.
    intros H. destruct (Hplay H) as (_ & H2 & H3). auto.
  - (* ProcessPcmChunk *)
    unfold processPcmChunk. rewrite (fl_unmuted _ _ _ F). cbn [orb].
    destruct (isReceivingPcm st) eqn:Er; cbn [negb].
    2: { destruct bytes; rewrite app_nil_r; auto. }
    destruct bytes as [c |]; [| rewrite app_nil_r; auto].
    cbn [converts] in Hconv. psimpl.
    destruct F as [Hctx Hmute Hrate Hok Hsingle Hbusy Hplay].
    destruct (isProcessingPcm st) eqn:Ep; cbn [negb].
    + split; [| split].
      * constructor; psimpl; try assumption; try congruence.
        -- rewrite forallb_snoc, Hok, Hconv. reflexivity.
        -- rewrite Ep. exact Hsingle.
        -- intros H. destruct (Hplay H) as (H1 & _). congruence.
      * unfold rendered. psimpl. rewrite app_assoc. reflexivity.
      * psimpl. exact Er.
    + assert (Hq : pcmQueue st = []).
      { destruct (pcmQueue st); [reflexivity |].
        assert (false = true) by (apply Hbusy; discriminate). discriminate. }
      unfold processPcmQueue. psimpl. rewrite Hq. cbn [app].
      rewrite processQueue_starts; psimpl; try assumption; try congruence.
      destruct Hsingle as (past & cur & Hs & Hpast & ->).
      rewrite app_nil_r in Hs.
      split; [| split].
      * constructor; psimpl; try assumption; try reflexivity; try congruence.
        -- exists past, [sourceOf (setPcmQueue [c] st) c]. rewrite Hs.
           repeat split; auto. eexists. split; reflexivity.
        -- intros H. destruct (Hplay H) as (H1 & _). congruence.
      * unfold rendered. psimpl. rewrite map_app, !app_nil_r. reflexivity.
      * exact Er.
  - (* PlaybackEnds *)
    rewrite app_nil_r.
    destruct (isProcessingPcm st) eqn:Ep.
    + destruct (playbackEnds_busy rate st i F Ep) as (past & s & Hs & Hpast & Hr & Hother & Hat).
      destruct (Nat.eq_dec i (List.length past)) as [-> | Hne].
      * cbn [step] in Hat. rewrite Hat.
        destruct (afterPlayback_flight rate st past s F Ep Hs Hpast) as (F' & Hacc & Hrecv & _).
        split; [exact F' | split; [exact Hacc | exact Hrecv]].
      * cbn [step] in Hother. rewrite (Hother Hne). auto.
    + pose proof (playbackEnds_idle rate st i F Ep) as Hidle.
      cbn [step] in Hidle. rewrite Hidle. auto.
Qed.

Lemma flight_run (rate : Z) (evs : list Event) (st : Playback) :
  Flight env rate st ->
  forallb inStream evs = true -> forallb (converts env rate) evs = true ->
  Flight env rate (run env evs st) /\
  rendered (run env evs st) ++ pcmQueue (run env evs st) =
  (rendered st ++ pcmQueue st) ++ (if isReceivingPcm st then enqueued evs else []).
Proof.
  revert st. induction evs as [| ev evs IH]; intros st F Hin Hconv.
  - cbn [run fold_left enqueued]. destruct (isReceivingPcm st); rewrite app_nil_r; auto.
  - cbn [forallb] in Hin, Hconv.
    apply andb_prop in Hin as [Hin1 Hin2]. apply andb_prop in Hconv as [Hc1 Hc2].
    destruct (flight_step rate st ev F Hin1 Hc1) as (F1 & Hacc1 & Hrecv).
    destruct (IH (step env st ev) F1 Hin2 Hc2) as (F2 & Hacc2).
    unfold run in *. cbn [fold_left]. split; [exact F2 |].
    rewrite Hacc2, Hacc1, Hrecv, <- !app_assoc. f_equal. f_equal.
    pose proof (fl_unmuted _ _ _ F) as Hmute.
    destruct ev; try discriminate; cbn [accepted enqueued receivingAfter].
    + destruct (isReceivingPcm st); reflexivity.
    + rewrite Hmute. cbn [orb].
      destruct (isReceivingPcm st), bytes; reflexivity.
    + destruct (isReceivingPcm st); reflexivity.
Qed.

Lemma flight_start (rate : Z) (st0 : Playback) :
  Quiet st0 ->
  let st := snd (startPcmStream env (Some rate) st0) in
  Flight env rate st /\ rendered st = rendered st0 /\ pcmQueue st = [] /\
  isReceivingPcm st = true.
Proof.
  intros [Hctx Hmute Hsil]. unfold startPcmStream, initAudioContext.
  rewrite Hmute, Hctx. cbn [negb andb snd].
  split; [constructor; psimpl; try assumption; try reflexivity; try congruence |].
  - exists (sources st0), []. rewrite app_nil_r. auto.
  - repeat split; reflexivity.
Qed.

Lemma finishCurrent_busy (rate : Z) (st : Playback) :
  Flight env rate st -> isProcessingPcm st = true ->
  let st' := finishCurrent env st in
  Flight env rate st' /\
  rendered st' ++ pcmQueue st' = rendered st ++ pcmQueue st /\
  isReceivingPcm st' = isReceivingPcm st /\
  match pcmQueue st with
  | c :: rest => pcmQueue st' = rest /\ isProcessingPcm st' = true
  | [] => pcmQueue st' = [] /\ isProcessingPcm st' = false /\
          isPlaying st' = isReceivingPcm st /\ nowRendering st' = []
  end.
Proof.
  intros F Hp.
  destruct (playbackEnds_busy rate st 0 F Hp) as (past & s & Hs & Hpast & Hr & _ & Hat).
  assert (Hidx : List.length (sources st) - 1 = List.length past).
  { rewrite Hs, length_app. cbn [List.length]. lia. }
  cbn zeta. unfold finishCurrent. rewrite Hidx, Hat.
  destruct (afterPlayback_flight rate st past s F Hp Hs Hpast) as (F' & Hacc & Hrecv & Hq).
  split; [exact F' |]. split; [exact Hacc |]. split; [exact Hrecv |].
  destruct (pcmQueue st).
  - destruct Hq as (H1 & H2 & H3 & H4). repeat split; try assumption.
    + rewrite H3, (flight_playing rate st F Hp). reflexivity.
    + unfold nowRendering. rewrite H4, filter_app. cbn [filter stopRendering rendering].
      rewrite app_nil_r.
      rewrite (silent_filter _ Hpast). reflexivity.
  - destruct Hq as (H1 & H2 & _). split; assumption.
Qed.

Lemma finishCurrent_idle (rate : Z) (st : Playback) :
  Flight env rate st -> isProcessingPcm st = false -> finishCurrent env st = st.
Proof.
  intros F Hp. unfold finishCurrent. exact (playbackEnds_idle rate st _ F Hp).
Qed.

Lemma playOut_idle (rate : Z) (k : nat) (st : Playback) :
  Flight env rate st -> isProcessingPcm st = false -> playOut env k st = st.
Proof.
  intros F Hp. induction k as [| k IH]; [reflexivity |].
  cbn [playOut]. rewrite (finishCurrent_idle rate st F Hp). exact IH.
Qed.

Lemma playOut_flight (rate : Z) (k : nat) (st : Playback) :
  Flight env rate st ->
  Flight env rate (playOut env k st) /\
  rendered (playOut env k st) ++ pcmQueue (playOut env k st) =
  rendered st ++ pcmQueue st.
Proof.
  revert st. induction k as [| k IH]; intros st F; [auto |].
  cbn [playOut].
  destruct (flight_step rate st (PlaybackEnds (List.length (sources st) - 1)) F
              eq_refl eq_refl) as (F1 & Hacc & _).
  cbn [accepted] in Hacc. rewrite app_nil_r in Hacc.
  destruct (IH _ F1) as (F2 & Hacc2). split; [exact F2 |].
  unfold finishCurrent. rewrite Hacc2. exact Hacc.
Qed.

Lemma playOut_partial (rate : Z) (k : nat) (st : Playback) :
  Flight env rate st -> isProcessingPcm st = true ->
  k <= List.length (pcmQueue st) ->
  isProcessingPcm (playOut env k st) = true /\
  pcmQueue (playOut env k st) = skipn k (pcmQueue st) /\
  isReceivingPcm (playOut env k st) = isReceivingPcm st.
Proof.
  revert st. induction k as [| k IH]; intros st F Hp Hk; [auto |].
  cbn [playOut].
  destruct (finishCurrent_busy rate st F Hp) as (F1 & _ & Hrecv & Hq).
  destruct (pcmQueue st) as [| c rest] eqn:Eq; [cbn in Hk; lia |].
  destruct Hq as (Hq1 & Hq2).
  destruct (IH _ F1 Hq2) as (H1 & H2 & H3).
  { rewrite Hq1. cbn in Hk. lia. }
  rewrite H1, H2, H3, Hq1, Hrecv. auto.
Qed.

Lemma playOut_snoc (k : nat) (st : Playback) :
  playOut env (S k) st = finishCurrent env (playOut env k st).
Proof.
  revert st. induction k as [| k IH]; intros st; [reflexivity |].
  cbn [playOut] in *. rewrite IH. reflexivity.
Qed.

Lemma playOut_all (rate : Z) (st : Playback) :
  Flight env rate st -> isProcessingPcm st = true ->
  let stN := playOut env (S (List.length (pcmQueue st))) st in
  pcmQueue stN = [] /\ nowRendering stN = [] /\ isPlaying stN = isReceivingPcm st.
Proof.
  intros F Hp stN. subst stN. rewrite playOut_snoc.
  destruct (playOut_partial rate (List.length (pcmQueue st)) st F Hp (le_n _))
    as (H1 & H2 & H3).
  destruct (playOut_flight rate (List.length (pcmQueue st)) st F) as (F1 & _).
  destruct (finishCurrent_busy rate _ F1 H1) as (_ & _ & _ & Hq).
  rewrite H2, skipn_all in Hq. destruct Hq as (Hq1 & _ & Hq3 & Hq4).
  rewrite Hq1, Hq4, Hq3, H3. auto.
Qed.

(** One stream on a quiet hook.  At any moment of it (after
    [startPcmStream] on a hook with nothing rendering, whatever chunks,
    stream end and playback ends came since),
    [endPcmStream] clears the receiving flag and leaves the queue, the
    sources and [isPlaying] as they are.  As the playbacks then come to
    their ends, every chunk that was queued is started, in queue order and
    one at a time; [isPlaying] holds while a queued chunk is left, and is
    cleared when the playback of the last one ends.  All along the stream
    [isPlaying] is false only if the stream has ended and nothing is
    queued or rendering. *)
Theorem endPcmStream_drains (rate : Z) (st0 : Playback) (evs : list Event) :
  Quiet st0 ->
  forallb inStream evs = true ->
  forallb (converts env rate) evs = true ->
  let st := run env evs (snd (startPcmStream env (Some rate) st0)) in
  let st1 := endPcmStream env st in
  (rendered st ++ pcmQueue st = rendered st0 ++ enqueued evs /\
   List.length (nowRendering st) <= 1) /\
  (isPlaying st = false ->
   isReceivingPcm st = false /\ pcmQueue st = [] /\ nowRendering st = []) /\
  (isReceivingPcm st1 = false /\ pcmQueue st1 = pcmQueue st /\
   rendered st1 = rendered st /\ isPlaying st1 = isPlaying st) /\
  (forall k, let stk := playOut env k st1 in
     rendered stk ++ pcmQueue stk = rendered st ++ pcmQueue st /\
     List.length (nowRendering stk) <= 1 /\
     (isProcessingPcm st = true -> k <= List.length (pcmQueue st) ->
      isPlaying stk = true)) /\
  (let stN := playOut env (S (List.length (pcmQueue st))) st1 in
   rendered stN = rendered st ++ pcmQueue st /\ pcmQueue stN = [] /\
   nowRendering stN = [] /\
   (isProcessingPcm st = true -> isPlaying stN = false)).
Proof.
  intros HQ Hin Hconv st st1.
  destruct (flight_start rate st0 HQ) as (F0 & Hr0 & Hq0 & Hrecv0).
  destruct (flight_run rate evs _ F0 Hin Hconv) as (F & Hacc).
  fold st in F, Hacc. rewrite Hr0, Hq0, Hrecv0, app_nil_r in Hacc.
  assert (Hend : st1 = setIsReceivingPcm false st).
  { subst st1. unfold endPcmStream. psimpl. destruct (pcmQueue st) eqn:Eq; [reflexivity |].
    rewrite (fl_busy _ _ _ F) by congruence. reflexivity. }
  destruct (flight_step rate st EndPcmStream F eq_refl eq_refl) as (F1 & _ & _).
  cbn [step] in F1. fold st1 in F1.
  assert (Hsame : pcmQueue st1 = pcmQueue st /\ rendered st1 = rendered st /\
                  isPlaying st1 = isPlaying st /\ isProcessingPcm st1 = isProcessingPcm st /\
                  isReceivingPcm st1 = false).
  { rewrite Hend. repeat split; reflexivity. }
  destruct Hsame as (Hq1 & Hr1 & Hp1 & Hproc1 & Hrecv1).
  split; [split; [exact Hacc | exact (flight_single_flight rate _ F)] |]. split.
  { intros Hoff. destruct (fl_playing _ _ _ F Hoff) as (H1 & H2 & H3).
    split; [exact H1 |]. split; [exact H2 |].
    destruct (fl_single _ _ _ F) as (past & cur & Hs & Hpast & Hcur).
    rewrite H3 in Hcur. subst cur. rewrite app_nil_r in Hs.
    unfold nowRendering. rewrite Hs, (silent_filter _ Hpast). reflexivity. }
  split; [auto |]. split.
  - intros k stk. subst stk.
    destruct (playOut_flight rate k st1 F1) as (Fk & Hk).
    rewrite Hk, Hr1, Hq1. split; [reflexivity |].
    split; [exact (flight_single_flight rate _ Fk) |].
    intros Hp Hle. rewrite <- Hproc1 in Hp. rewrite <- Hq1 in Hle.
    destruct (playOut_partial rate k st1 F1 Hp Hle) as (H1 & _).
    exact (flight_playing rate _ Fk H1).
  - intros stN. subst stN. rewrite <- Hq1, <- Hr1, <- Hproc1. clear Hproc1.
    destruct (playOut_flight rate (S (List.length (pcmQueue st1))) st1 F1) as (FN & HN).
    destruct (isProcessingPcm st1) eqn:Ep.
    + destruct (playOut_all rate st1 F1 Ep) as (H1 & H2 & H3).
      rewrite H1, app_nil_r in HN.
      rewrite HN, H1, H2, H3, Hrecv1. auto.
    + rewrite (playOut_idle rate _ st1 F1 Ep).
      assert (Hq : pcmQueue st1 = []).
      { destruct (pcmQueue st1) eqn:Eq; [reflexivity |].
        rewrite (fl_busy _ _ _ F1) in Ep by congruence. discriminate. }
      rewrite Hq, app_nil_r.
      repeat split; try reflexivity; try discriminate.
      destruct (fl_single _ _ _ F1) as (past & cur & Hs & Hpast & Hcur).
      rewrite Ep in Hcur. subst cur. rewrite app_nil_r in Hs.
      unfold nowRendering. rewrite Hs, (silent_filter _ Hpast). reflexivity.
Qed.
End Stream.

(** The theorem at a stream of three chunks on a hook that has just
    mounted, none of them played out when the stream ends. *)
Lemma endPcmStream_drains_witness :
  let st0 := mount browser initial in
  let evs := [ ProcessPcmChunk (Some chunkA); ProcessPcmChunk (Some chunkB);
               ProcessPcmChunk (Some chunkC) ] in
  let st := run browser evs (snd (startPcmStream browser (Some 24000%Z) st0)) in
  let st1 := endPcmStream browser st in
  (Quiet st0 /\ forallb inStream evs = true /\
   forallb (converts browser 24000%Z) evs = true) /\
  (rendered st ++ pcmQueue st = rendered st0 ++ enqueued evs /\
   rendered (playOut browser 3 st1) = [chunkA; chunkB; chunkC] /\
   isPlaying (playOut browser 2 st1) = true /\
   isPlaying (playOut browser 3 st1) = false).
Proof.
  cbn zeta.
  assert (HQ : Quiet (mount browser initial)) by (constructor; reflexivity).
  split; [split; [exact HQ | split; reflexivity] |].
  destruct (endPcmStream_drains browser 24000%Z (mount browser initial)
              [ ProcessPcmChunk (Some chunkA); ProcessPcmChunk (Some chunkB);
                ProcessPcmChunk (Some chunkC) ]
              HQ eq_refl eq_refl) as ((H1 & _) & _ & _ & H3 & H4).
  split; [exact H1 |].
  split; [exact (proj1 H4) |].
  split; [exact (proj2 (proj2 (H3 2)) eq_refl (le_n 2)) |].
  exact (proj2 (proj2 (proj2 H4)) eq_refl).
Defined.

(** When the stream end arrives after the last playback has already come
    to its end, no call is left to clear [isPlaying]. *)
Lemma stream_end_after_last_playback :
  let st := run browser
              [ Mounts; StartPcmStream (Some 24000%Z);
                ProcessPcmChunk (Some chunkA); PlaybackEnds 0; EndPcmStream ]
              initial in
  nowRendering st = [] /\ pcmQueue st = [] /\ isReceivingPcm st = false /\
  isPlaying st = true.
Proof.
  cbn zeta. repeat split; vm_compute; reflexivity.
Qed.

(** C6. A stream that starts right after a barge-in, while the chunk that
    was interrupted is still rendering.  Chunks B and C arrive; when the
    old playback ends, C is started on top of B.  [endPcmStream] then
    finds the queue empty, and when B ends [isPlaying] is cleared while
    C, delivered before the end of the stream, is still rendering. *)
Theorem stream_after_barge_in_ends_early :
  let st := run browser Streams.afterBargeIn initial in
  let st1 := endPcmStream browser st in
  let st2 := step browser st1 (PlaybackEnds 1) in
  (rendered st = [chunkA; chunkB; chunkC] /\ nowRendering st = [chunkB; chunkC] /\
   isReceivingPcm st = true /\ isPlaying st = true) /\
  (isReceivingPcm st1 = false /\ pcmQueue st1 = [] /\
   nowRendering st1 = [chunkB; chunkC] /\ isPlaying st1 = true) /\
  (isPlaying st2 = false /\ nowRendering st2 = [chunkC]).
Proof.
  cbn zeta. repeat split; vm_compute; reflexivity.
Qed.

End PlaybackFacts.

Module ChatFacts.
Import Wire ChatInterface.
Local Open Scope string_scope.
Local Open Scope nat_scope.

Lemma sendMessage_open (message : Command) (w : UseWebSocket.Hook) (i : nat)
    (s : UseWebSocket.Socket) :
  UseWebSocket.socketRef w = Some i ->
  nth_error (UseWebSocket.sockets w) i = Some s ->
  UseWebSocket.isOpen s = true ->
  UseWebSocket.sendMessage message w =
  (true,
   UseWebSocket.setSockets
     (UseWebSocket.update i (UseWebSocket.socket_send message) (UseWebSocket.sockets w)) w).
Proof.
  intros Hr Hn Ho. unfold UseWebSocket.sendMessage. rewrite Hr, Hn, Ho. reflexivity.
Qed.

(** X3. [sendTextQuery] while the assistant speaks over an open socket: the
    playback is interrupted, and the socket gets [interrupt_speech] and
    then the query, and nothing else. *)
Theorem sendTextQuery_interrupts_first (text : string) (st : Chat) (i : nat)
    (s : UseWebSocket.Socket) :
  UseWebSocket.isEmpty text = false ->
  UseWebSocket.isConnected (ws st) = true ->
  UseWebSocket.socketRef (ws st) = Some i ->
  nth_error (UseWebSocket.sockets (ws st)) i = Some s ->
  UseWebSocket.isOpen s = true ->
  UseAudioPlayback.isPlaying (playback st) = true ->
  let st' := exec (sendTextQuery text) st in
  (exists s', nth_error (UseWebSocket.sockets (ws st')) i = Some s' /\
              UseWebSocket.sent s'
              = (UseWebSocket.sent s ++ [interrupt_speech; text_query text])%list) /\
  UseAudioPlayback.isPlaying (playback st') = false /\
  UseAudioPlayback.pcmQueue (playback st') = [] /\
  UseAudioPlayback.isReceivingPcm (playback st') = false.
Proof.
  intros Ht Hc Hr Hn Ho Hp. cbn zeta.
  unfold exec, sendTextQuery, bind, isConnected, isPlaying, when, ret,
    interruptPlayback, sendMessage, addMessage, setInputText, onWs, onPlayback.
  rewrite Ht, Hc, Hp. cbn [orb negb].
  unfold UseAudioPlayback.interruptPlayback. rewrite Hp. cbn [ws playback fst snd].
  rewrite (sendMessage_open _ _ i s Hr Hn Ho). cbn [ws playback fst snd].
  pose proof (WebSocketFacts.nth_error_update_same i
                (UseWebSocket.socket_send interrupt_speech) _ s Hn) as Hn1.
  rewrite (sendMessage_open _ _ i (UseWebSocket.socket_send interrupt_speech s)); cbn;
    try assumption.
  split; [| repeat split].
  eexists. split.
  - apply WebSocketFacts.nth_error_update_same. exact Hn1.
  - cbn. rewrite <- app_assoc. reflexivity.
Qed.

(** The theorem at the component while the assistant speaks. *)
Lemma sendTextQuery_interrupts_first_witness :
  let st' := exec (sendTextQuery "orders") speaking in
  (UseWebSocket.isEmpty "orders" = false /\
   UseWebSocket.isConnected (ws speaking) = true /\
   UseWebSocket.socketIsOpen (ws speaking) = true /\
   UseAudioPlayback.isPlaying (playback speaking) = true) /\
  ((exists s', nth_error (UseWebSocket.sockets (ws st')) 0 = Some s' /\
               UseWebSocket.sent s'
               = [ping 1700000000000; interrupt_speech; text_query "orders"]) /\
   UseAudioPlayback.isPlaying (playback st') = false /\
   UseAudioPlayback.pcmQueue (playback st') = [] /\
   UseAudioPlayback.isReceivingPcm (playback st') = false).
Proof.
  cbn zeta. split; [repeat split |].
  exact (sendTextQuery_interrupts_first "orders" speaking 0
           {| UseWebSocket.url := "wss://gateway.example/prod?client_id=a";
              UseWebSocket.readyState := UseWebSocket.OPEN;
              UseWebSocket.sent := [ping 1700000000000];
              UseWebSocket.seen := 0 |}
           eq_refl eq_refl eq_refl eq_refl eq_refl eq_refl).
Defined.

(** The frames of a stream of three chunks, routed one by one: the chunks
    are started in order as the playbacks end, and [isPlaying] is cleared
    by the end of the third. *)
Lemma three_chunks_play_in_order :
  let browser := UseAudioPlayback.browser in
  let st := playback (exec (processMessages browser threeChunks) ready) in
  UseAudioPlayback.rendered st = [UseAudioPlayback.chunkA] /\
  UseAudioPlayback.pcmQueue st = [UseAudioPlayback.chunkB; UseAudioPlayback.chunkC] /\
  UseAudioPlayback.isPlaying (UseAudioPlayback.playOut browser 2 st) = true /\
  UseAudioPlayback.nowRendering (UseAudioPlayback.playOut browser 2 st)
    = [UseAudioPlayback.chunkC] /\
  UseAudioPlayback.rendered (UseAudioPlayback.playOut browser 3 st)
    = [UseAudioPlayback.chunkA; UseAudioPlayback.chunkB; UseAudioPlayback.chunkC] /\
  UseAudioPlayback.isPlaying (UseAudioPlayback.playOut browser 3 st) = false.
Proof.
  cbn zeta. repeat split; vm_compute; reflexivity.
Qed.

(** C7. The [toggleRecording] handed to the tap-to-speak button touches the
    recording hook only: whatever the state, the playback hook and the
    socket are as before.  With the assistant speaking, a tap requests the
    microphone while the chunk keeps playing and no frame is sent; a text
    query in the same state interrupts and sends [interrupt_speech] first,
    and so does the legacy page's [toggleRecording]. *)
Theorem toggleRecording_skips_interrupt (mediaDevices : bool) (st : Chat) :
  let st' := exec (toggleRecording mediaDevices) st in
  let heard := exec (toggleRecording true) speaking in
  (playback st' = playback st /\ ws st' = ws st) /\
  (UseAudioPlayback.isPlaying (playback speaking) = true /\
   UseAudioPlayback.isPlaying (playback heard) = true /\
   UseAudioPlayback.nowRendering (playback heard) = [UseAudioPlayback.chunkA] /\
   frames heard = frames speaking /\
   UseAudioRecording.requests (recorder heard) = 1) /\
  (frames (exec (sendTextQuery "orders") speaking) =
     [[ping 1700000000000; interrupt_speech; text_query "orders"]] /\
   Legacy.wire (Legacy.toggleRecording Legacy.speaking) = [interrupt_speech] /\
   Legacy.isAssistantSpeaking (Legacy.toggleRecording Legacy.speaking) = false).
Proof.
  cbn zeta. split; [split; reflexivity |].
  split; repeat split; vm_compute; reflexivity.
Qed.

End ChatFacts.

(* ===================================================================== *)
Module DecoderFacts.
Import Pcm.
Local Open Scope Z_scope.

Lemma byte_val_range (b : byte) : 0 <= byte_val b < 256.
Proof.
  unfold byte_val. pose proof (Byte.to_N_bounded b). lia.
Qed.

Lemma byte_val_injective (a b : byte) : byte_val a = byte_val b -> a = b.
Proof.
  unfold byte_val. intros H. apply N2Z.inj in H.
  pose proof (Byte.of_to_N a) as Ka. pose proof (Byte.of_to_N b) as Kb.
  rewrite H in Ka. rewrite Ka in Kb. injection Kb as ->. reflexivity.
Qed.

Lemma at_offset_range (d : list byte) (k : nat) : 0 <= at_offset d k < 256.
Proof.
  unfold at_offset. destruct (nth_error d k); [apply byte_val_range | lia].
Qed.

(** A low byte and a shifted high byte do not overlap. *)
Lemma lor_low_high (a b : Z) : 0 <= a < 256 -> 0 <= b ->
  Z.lor a (Z.shiftl b 8) = a + 256 * b.
Proof.
  intros Ha Hb.
  assert (Hd : Z.land (Z.shiftl b 8) a = 0).
  { rewrite <- (Z.mod_small a (2 ^ 8)) by lia.
    rewrite <- Z.land_ones by lia. apply Z.bits_inj'. intros n Hn.
    rewrite Z.land_spec, Z.bits_0.
    destruct (Z.ltb_spec n 8).
    - rewrite Z.shiftl_spec_low by lia. reflexivity.
    - rewrite Z.land_spec, Z.ones_spec_high by lia. rewrite !andb_false_r. reflexivity. }
  rewrite Z.lor_comm.
  rewrite <- (Z.lxor_lor _ _ Hd), <- (Z.add_nocarry_lxor _ _ Hd).
  rewrite Z.shiftl_mul_pow2 by lia. lia.
Qed.

Lemma sample_at_value (d : list byte) (k : nat) :
  sample_at d k = at_offset d k + 256 * at_offset d (k + 1).
Proof.
  unfold sample_at.
  pose proof (at_offset_range d k). pose proof (at_offset_range d (k + 1)).
  change 0xff with (Z.ones 8). rewrite !Z.land_ones by lia.
  rewrite !Z.mod_small by lia. apply lor_low_high; lia.
Qed.

Lemma sample_at_range (d : list byte) (k : nat) : 0 <= sample_at d k < 65536.
Proof.
  rewrite sample_at_value.
  pose proof (at_offset_range d k). pose proof (at_offset_range d (k + 1)). lia.
Qed.

(** The two branches of the decoder, on a 16-bit value. *)
Lemma to_float_cases (s : Z) : 0 <= s < 65536 ->
  (32768 <= s /\ (to_float s == -1 + inject_Z (s - 32768) * (1 # 32768))%Q) \/
  (s < 32768 /\ (to_float s == inject_Z s * (1 # 32767))%Q).
Proof.
  intros H. unfold to_float. destruct (Z.leb_spec 0x8000 s) as [Hn | Hp].
  - left. split; [lia |].
    change 0x7fff with (Z.ones 15). rewrite Z.land_ones by lia.
    assert (Hm : s mod 2 ^ 15 = s - 32768).
    { symmetry. apply Z.mod_unique with (q := 1); lia. }
    rewrite Hm. unfold Qdiv. change (/ inject_Z 32768)%Q with (1 # 32768)%Q. reflexivity.
  - right. split; [lia |]. unfold Qdiv. change (/ inject_Z 32767)%Q with (1 # 32767)%Q.
    reflexivity.
Qed.

Lemma inject_Z_bounds (k lo hi : Z) : lo <= k <= hi ->
  (inject_Z lo <= inject_Z k /\ inject_Z k <= inject_Z hi)%Q.
Proof. intros [H1 H2]. split; rewrite <- Zle_Qle; assumption. Qed.

Lemma to_float_in_range (s : Z) : 0 <= s < 65536 -> in_range (to_float s).
Proof.
  intros H. unfold in_range.
  destruct (to_float_cases s H) as [[Hs E] | [Hs E]]; rewrite E.
  - destruct (inject_Z_bounds (s - 32768) 0 32767) as [L U]; [lia |].
    change (inject_Z 0) with 0%Q in L. change (inject_Z 32767) with (32767 # 1)%Q in U.
    split; lra.
  - destruct (inject_Z_bounds s 0 32767) as [L U]; [lia |].
    change (inject_Z 0) with 0%Q in L. change (inject_Z 32767) with (32767 # 1)%Q in U.
    split; lra.
Qed.

Lemma to_float_injective (a b : Z) : 0 <= a < 65536 -> 0 <= b < 65536 ->
  (to_float a == to_float b)%Q -> a = b.
Proof.
  intros Ha Hb E.
  destruct (to_float_cases a Ha) as [[Sa Ea] | [Sa Ea]];
  destruct (to_float_cases b Hb) as [[Sb Eb] | [Sb Eb]];
  rewrite Ea, Eb in E.
  - assert (K : (inject_Z (a - 32768) == inject_Z (b - 32768))%Q).
    { set (x := inject_Z (a - 32768)) in *. set (y := inject_Z (b - 32768)) in *.
      apply Qle_antisym; lra. }
    pose proof (proj1 (inject_Z_injective _ _) K). lia.
  - exfalso.
    destruct (inject_Z_bounds (a - 32768) 0 32767) as [L U]; [lia |].
    destruct (inject_Z_bounds b 0 32767) as [L' U']; [lia |].
    change (inject_Z 0) with 0%Q in *. change (inject_Z 32767) with (32767 # 1)%Q in *.
    lra.
  - exfalso.
    destruct (inject_Z_bounds (b - 32768) 0 32767) as [L U]; [lia |].
    destruct (inject_Z_bounds a 0 32767) as [L' U']; [lia |].
    change (inject_Z 0) with 0%Q in *. change (inject_Z 32767) with (32767 # 1)%Q in *.
    lra.
  - assert (K : (inject_Z a == inject_Z b)%Q).
    { set (x := inject_Z a) in *. set (y := inject_Z b) in *.
      apply Qle_antisym; lra. }
    exact (proj1 (inject_Z_injective _ _) K).
Qed.

Lemma fill_length (d : list byte) (n k : nat) : List.length (fill d n k) = n.
Proof.
  revert k. induction n as [| n IH]; intros k; cbn [fill List.length];
    [reflexivity | rewrite IH; reflexivity].
Qed.

Lemma fill_in_range (d : list byte) (n k : nat) : Forall in_range (fill d n k).
Proof.
  revert k. induction n as [| n IH]; intros k; cbn [fill]; constructor.
  - apply to_float_in_range, sample_at_range.
  - apply IH.
Qed.

(** X5. Whatever the bytes and the sample rate, the buffer
    [convertPcmToAudioBuffer] fills has one sample for every two bytes (an
    odd trailing byte is left out) and every sample lies in [-1, 1]. *)
Theorem decoded_samples_in_range (rate : Z) (pcmData : list byte) :
  let audioBuffer := audioBufferOf rate pcmData in
  List.length (channelData audioBuffer) = Nat.div (List.length pcmData) 2 /\
  Forall in_range (channelData audioBuffer).
Proof.
  cbn zeta. unfold audioBufferOf. cbn [channelData]. split.
  - apply fill_length.
  - apply fill_in_range.
Qed.

(** X6. The conversion of a sample loses nothing: two byte pairs that
    differ decode to different values. *)
Theorem decoder_tells_samples_apart (lo hi lo' hi' : byte) :
  lo <> lo' \/ hi <> hi' ->
  ~ (to_float (sample_at [lo; hi] 0) == to_float (sample_at [lo'; hi'] 0))%Q.
Proof.
  intros Hne E. apply to_float_injective in E; try apply sample_at_range.
  rewrite !sample_at_value in E. unfold at_offset in E. cbn [nth_error Nat.add] in E.
  pose proof (byte_val_range lo). pose proof (byte_val_range lo').
  pose proof (byte_val_range hi). pose proof (byte_val_range hi').
  assert (lo = lo' /\ hi = hi') as [-> ->] by (split; apply byte_val_injective; lia).
  destruct Hne as [K | K]; apply K; reflexivity.
Qed.

(** The most negative sample and silence: 0x8000 against 0x0000. *)
Lemma decoder_tells_samples_apart_witness :
  (x00 <> x00 \/ x80 <> x00) /\
  ~ (to_float (sample_at [x00; x80] 0) == to_float (sample_at [x00; x00] 0))%Q.
Proof.
  split; [right; discriminate |].
  apply decoder_tells_samples_apart. right. discriminate.
Defined.

End DecoderFacts.

(* ===================================================================== *)
Module SessionFacts.
Import Wire UseWebSocket Sessions.
Import WebSocketFacts.
Local Open Scope string_scope.
Local Open Scope nat_scope.

Lemma nth_error_update_inv (i j : nat) (f : Socket -> Socket) (ss : list Socket) (s : Socket) :
  nth_error (update i f ss) j = Some s ->
  exists s0, nth_error ss j = Some s0 /\ (s = s0 \/ (j = i /\ s = f s0)).
Proof.
  intros H. destruct (Nat.eq_dec j i) as [-> | Hne].
  - destruct (nth_error ss i) as [s0 |] eqn:E.
    + rewrite (nth_error_update_same i f ss s0 E) in H. injection H as <-.
      exists s0. auto.
    + exfalso. revert i H E. induction ss as [| x ss IH]; intros [| i] H E; cbn in *;
        try discriminate. eapply IH; eassumption.
  - rewrite (nth_error_update_other i j f ss Hne) in H. exists s. auto.
Qed.

Lemma live_update (f : Socket -> Socket) (i : nat) (st : Hook) :
  (forall s, isLive (f s) = true -> isLive s = true) ->
  onlyCurrentLive st -> onlyCurrentLive (setSockets (update i f (sockets st)) st).
Proof.
  intros Hf H j s Hn Hl. hsimpl.
  destruct (nth_error_update_inv _ _ _ _ _ Hn) as (s0 & Hn0 & [-> | [-> ->]]).
  - exact (H j s0 Hn0 Hl).
  - exact (H i s0 Hn0 (Hf _ Hl)).
Qed.

Lemma live_close (s : Socket) : isLive (socket_close s) = true -> isLive s = true.
Proof. unfold socket_close. destruct (isLive s) eqn:E; [reflexivity | rewrite E; auto]. Qed.

Lemma close_not_live (s : Socket) : isLive (socket_close s) = false.
Proof.
  unfold socket_close. destruct (isLive s) eqn:E; [reflexivity | exact E].
Qed.

Lemma live_send (m : Command) (s : Socket) : isLive (socket_send m s) = true -> isLive s = true.
Proof. auto. Qed.

Lemma closeExisting_noneLive (st : Hook) : onlyCurrentLive st -> noneLive (closeExisting st).
Proof.
  intros H j s Hn. unfold closeExisting in Hn.
  destruct (socketRef st) as [i |] eqn:Er.
  - hsimpl. destruct (nth_error_update_inv _ _ _ _ _ Hn) as (s0 & Hn0 & [-> | [-> ->]]).
    + destruct (isLive s0) eqn:E; [| reflexivity].
      pose proof (H j s0 Hn0 E) as Hj. rewrite Er in Hj. injection Hj as <-.
      rewrite (nth_error_update_same _ _ _ _ Hn0) in Hn. injection Hn as Hs.
      pose proof (close_not_live s0) as Hc. rewrite Hs in Hc. congruence.
    + apply close_not_live.
  - destruct (isLive s) eqn:E; [| reflexivity].
    pose proof (H j s Hn E) as Hj. rewrite Er in Hj. discriminate.
Qed.

Lemma noneLive_only (st : Hook) : noneLive st -> onlyCurrentLive st.
Proof. intros H j s Hn Hl. rewrite (H j s Hn) in Hl. discriminate. Qed.

Lemma openSocket_live (env : Env) (n : nat) (u : string) (st : Hook) :
  noneLive st -> onlyCurrentLive (openSocket env n u st).
Proof.
  intros H. unfold openSocket. destruct (accepts env u).
  - intros j s Hn Hl. hsimpl.
    destruct (Nat.lt_ge_cases j (List.length (sockets st))) as [Hlt | Hge].
    + rewrite nth_error_app1 in Hn by exact Hlt. rewrite (H j s Hn) in Hl. discriminate.
    + rewrite nth_error_app2 in Hn by exact Hge.
      destruct (j - List.length (sockets st)) as [| k] eqn:E.
      * f_equal. lia.
      * cbn in Hn. destruct k; discriminate.
  - apply noneLive_only. exact H.
Qed.

Lemma connect_live (env : Env) (c : Client) (n : nat) (id : string) (st : Hook) :
  onlyCurrentLive st -> onlyCurrentLive (connect env c n id st).
Proof.
  intros H. unfold connect. destruct c.
  - destruct (isEmpty (wsUrl env HostClient id)).
    + apply noneLive_only, closeExisting_noneLive, H.
    + apply openSocket_live, closeExisting_noneLive, H.
  - destruct (isEmpty (orEmpty (NEXT_PUBLIC_WS_GATEWAY env))).
    + exact H.
    + apply openSocket_live, closeExisting_noneLive, H.
Qed.

Lemma cleanup_live (timer : option nat) (st : Hook) :
  onlyCurrentLive st -> onlyCurrentLive (cleanup timer st).
Proof.
  intros H. unfold cleanup. destruct timer as [h |]; [| exact H].
  hsimpl. unfold clearTimeout at 1. hsimpl. destruct (socketRef st) as [i |].
  - apply (live_update socket_close i (clearTimeout h st) live_close). exact H.
  - exact H.
Qed.

Lemma runEffect_live (env : Env) (st : Hook) :
  onlyCurrentLive st -> onlyCurrentLive (runEffect env st).
Proof. intros H. unfold runEffect. destruct (window env); exact H. Qed.

Lemma render_live (env : Env) (st : Hook) :
  onlyCurrentLive st -> onlyCurrentLive (render env st).
Proof.
  intros H. unfold render. destruct (effect st) as [[n timer] |]; [| exact H].
  destruct (n =? reconnectAttempts st); [exact H |].
  apply runEffect_live, cleanup_live, H.
Qed.

Lemma onclose_sockets (c : Client) (n : nat) (event : CloseEvent) (st : Hook) :
  sockets (onclose c n event st) = sockets st /\
  socketRef (onclose c n event st) = socketRef st.
Proof.
  unfold onclose. destruct (negb (wasClean event) && (n <? maxReconnectAttempts)).
  - split; reflexivity.
  - destruct (maxReconnectAttempts <=? n); split; reflexivity.
Qed.

Lemma handle_live (c : Client) (env : Env) (ev : Event) (st : Hook) :
  onlyCurrentLive st -> onlyCurrentLive (handle_event c env ev st).
Proof.
  intros H. destruct ev; cbn [handle_event].
  - destruct (effect st); [exact H | apply runEffect_live, H].
  - destruct (find _ _); [| exact H]. apply connect_live. exact H.
  - destruct (nth_error (sockets st) i) as [s |] eqn:E; [| exact H].
    destruct (isConnecting s) eqn:Ec; [| exact H].
    assert (Hi : socketRef st = Some i).
    { apply (H i s E). unfold isLive. unfold isConnecting in Ec.
      destruct (readyState s); try discriminate; reflexivity. }
    assert (H1 : onlyCurrentLive (setSockets (update i (withReadyState OPEN) (sockets st)) st)).
    { intros j s' Hn Hl. hsimpl.
      destruct (nth_error_update_inv _ _ _ _ _ Hn) as (s0 & Hn0 & [-> | [-> ->]]).
      - exact (H j s0 Hn0 Hl).
      - exact Hi. }
    unfold onopen. destruct c.
    + exact H1.
    + hsimpl.
      apply (live_update (socket_send (ping now)) i
               (setReconnectAttempts 0 (setStatus "Connected" (setIsConnected true
                  (setSockets (update i (withReadyState OPEN) (sockets st)) st))))
               (live_send _)).
      exact H1.
  - destruct (nth_error (sockets st) i) as [s |] eqn:E; [| exact H].
    destruct (isClosed s); [exact H |].
    intros j s' Hn Hl.
    destruct (onclose_sockets c (seen s) event
                (setSockets (update i (withReadyState CLOSED) (sockets st)) st)) as (Hs & Hr).
    rewrite Hs in Hn. rewrite Hr. hsimpl.
    destruct (nth_error_update_inv _ _ _ _ _ Hn) as (s0 & Hn0 & [-> | [-> ->]]).
    + exact (H j s0 Hn0 Hl).
    + discriminate.
  - destruct (nth_error (sockets st) i); exact H.
  - destruct (nth_error (sockets st) i) as [s |]; [| exact H].
    destruct (isOpen s); [| exact H]. unfold onmessage. destruct data; exact H.
  - unfold sendMessage. destruct (socketRef st) as [i |] eqn:Er; [| exact H].
    destruct (nth_error (sockets st) i) as [s |]; [| exact H].
    destruct (isOpen s); [| exact H]. cbn [snd].
    apply (live_update (socket_send message) i st (live_send _)). exact H.
  - destruct (effect st) as [[n timer] |]; [| exact H].
    exact (cleanup_live timer st H).
Qed.

Lemma run_live (c : Client) (env : Env) (evs : list Event) :
  onlyCurrentLive (run c env evs initial).
Proof.
  assert (G : forall st, onlyCurrentLive st -> onlyCurrentLive (run c env evs st)).
  { induction evs as [| ev evs IH]; intros st Hst; [exact Hst |].
    unfold run in *. cbn [fold_left]. apply IH. unfold step.
    apply render_live, handle_live, Hst. }
  apply G. intros j0 s Hn. destruct j0; discriminate.
Qed.

(** X7. At every moment of a session at most one socket is open or
    connecting, and it is the one [socketRef] names: [connect] and the
    cleanup of the effect close the current socket before it is replaced. *)
Theorem only_current_socket_is_live (c : Client) (env : Env) (evs : list Event)
    (j k : nat) (s1 s2 : Socket) :
  let st := run c env evs initial in
  nth_error (sockets st) j = Some s1 -> isLive s1 = true ->
  nth_error (sockets st) k = Some s2 -> isLive s2 = true ->
  j = k /\ socketRef st = Some j.
Proof.
  cbn zeta. pose proof (run_live c env evs) as H.
  intros H1 L1 H2 L2.
  pose proof (H j s1 H1 L1) as R1. pose proof (H k s2 H2 L2) as R2.
  rewrite R1 in R2. injection R2 as ->. auto.
Qed.

(** After the first socket has failed and the second is connecting, the
    only live socket is the second. *)
Lemma only_current_socket_is_live_witness :
  let st := run GatewayClient configured secondSocket initial in
  let s := {| url := "wss://gateway.example/prod?client_id=b";
              readyState := CONNECTING; sent := []; seen := 1 |} in
  (nth_error (sockets st) 1 = Some s /\ isLive s = true) /\
  (1 = 1 /\ socketRef st = Some 1).
Proof.
  cbn zeta. split; [split; reflexivity |].
  exact (only_current_socket_is_live GatewayClient configured secondSocket 1 1 _ _
           eq_refl eq_refl eq_refl eq_refl).
Defined.

Lemma Forall_update (P : Socket -> Prop) (f : Socket -> Socket) (i : nat) (ss : list Socket) :
  (forall s, P s -> P (f s)) -> Forall P ss -> Forall P (update i f ss).
Proof.
  intros Hf H. revert i. induction H as [| s ss Hs Hss IH]; intros [| i]; cbn.
  - constructor.
  - constructor.
  - constructor; [apply Hf, Hs | exact Hss].
  - constructor; [exact Hs | apply IH].
Qed.

Lemma Forall_filter {A : Type} (P : A -> Prop) (f : A -> bool) (l : list A) :
  Forall P l -> Forall P (filter f l).
Proof.
  induction 1 as [| a l Ha _ IH]; cbn; [constructor |].
  destruct (f a); [constructor; assumption | assumption].
Qed.

Lemma limit_sockets (f : Socket -> Socket) (i : nat) (st : Hook) :
  (forall s, seen (f s) = seen s) ->
  withinLimit st -> withinLimit (setSockets (update i f (sockets st)) st).
Proof.
  intros Hf (H1 & H2 & H3 & H4). repeat split; hsimpl; try assumption.
  apply Forall_update; [| exact H2]. intros s Hs. rewrite Hf. exact Hs.
Qed.

Lemma limit_closeExisting (st : Hook) : withinLimit st -> withinLimit (closeExisting st).
Proof.
  intros H. unfold closeExisting. destruct (socketRef st); [| exact H].
  apply limit_sockets; [| exact H]. intros s. unfold socket_close.
  destruct (isLive s); reflexivity.
Qed.

Lemma limit_connect (env : Env) (c : Client) (n : nat) (id : string) (st : Hook) :
  n <= maxReconnectAttempts -> withinLimit st -> withinLimit (connect env c n id st).
Proof.
  intros Hn H.
  assert (Ho : forall u st0, withinLimit st0 -> withinLimit (openSocket env n u st0)).
  { intros u st0 (H1 & H2 & H3 & H4). unfold openSocket. destruct (accepts env u).
    - repeat split; hsimpl; try assumption.
      apply Forall_app. split; [exact H2 |]. constructor; [exact Hn | constructor].
    - repeat split; assumption. }
  unfold connect. destruct c.
  - destruct (isEmpty _); [apply limit_closeExisting, H |].
    apply Ho, limit_closeExisting, H.
  - destruct (isEmpty _).
    + destruct H as (H1 & H2 & H3 & H4). repeat split; assumption.
    + apply Ho, limit_closeExisting, H.
Qed.

Lemma limit_clearTimeout (h : nat) (st : Hook) : withinLimit st -> withinLimit (clearTimeout h st).
Proof.
  intros (H1 & H2 & H3 & H4). unfold clearTimeout. repeat split; hsimpl; try assumption.
  apply Forall_filter. exact H3.
Qed.

Lemma limit_cleanup (timer : option nat) (st : Hook) : withinLimit st -> withinLimit (cleanup timer st).
Proof.
  intros H. unfold cleanup. destruct timer as [h |]; [| exact H].
  pose proof (limit_clearTimeout h st H) as Hc.
  destruct (socketRef (clearTimeout h st)); [| exact Hc].
  apply limit_sockets; [| exact Hc]. intros s. unfold socket_close.
  destruct (isLive s); reflexivity.
Qed.

Lemma limit_runEffect (env : Env) (st : Hook) : withinLimit st -> withinLimit (runEffect env st).
Proof.
  intros (H1 & H2 & H3 & H4). unfold runEffect, setTimeout. destruct (window env).
  - repeat split; hsimpl; try assumption.
    + apply Forall_app. split; [exact H3 |]. constructor; [exact H1 | constructor].
    + intros n timer E. injection E as <- _. exact H1.
  - repeat split; hsimpl; try assumption.
    intros n timer E. injection E as <- _. exact H1.
Qed.

Lemma limit_render (env : Env) (st : Hook) : withinLimit st -> withinLimit (render env st).
Proof.
  intros H. unfold render. destruct (effect st) as [[n timer] |]; [| exact H].
  destruct (n =? reconnectAttempts st); [exact H |].
  apply limit_runEffect, limit_cleanup, H.
Qed.

Lemma limit_onclose (c : Client) (n : nat) (event : CloseEvent) (st : Hook) :
  n <= maxReconnectAttempts -> withinLimit st -> withinLimit (onclose c n event st).
Proof.
  intros Hn (H1 & H2 & H3 & H4). unfold onclose, setTimeout.
  destruct (negb (wasClean event) && (n <? maxReconnectAttempts)) eqn:E.
  - apply andb_prop in E as [_ Hlt]. apply Nat.ltb_lt in Hlt.
    repeat split; hsimpl; try assumption; try lia.
    apply Forall_app. split; [exact H3 |]. constructor; [exact Hn | constructor].
  - destruct (maxReconnectAttempts <=? n); repeat split; assumption.
Qed.

Lemma limit_handle (c : Client) (env : Env) (ev : Event) (st : Hook) :
  withinLimit st -> withinLimit (handle_event c env ev st).
Proof.
  intros H. destruct ev; cbn [handle_event].
  - destruct (effect st); [exact H | apply limit_runEffect, H].
  - destruct (find _ _) as [t |] eqn:E; [| exact H].
    apply limit_connect; [| apply limit_clearTimeout, H].
    apply find_some in E as [Hin _]. destruct H as (_ & _ & H3 & _).
    rewrite Forall_forall in H3. exact (H3 t Hin).
  - destruct (nth_error (sockets st) i) as [s |]; [| exact H].
    destruct (isConnecting s); [| exact H].
    pose proof (limit_sockets (withReadyState OPEN) i st (fun _ => eq_refl) H) as H1.
    unfold onopen.
    assert (H2 : withinLimit
                   (setReconnectAttempts 0 (setStatus "Connected" (setIsConnected true
                      (setSockets (update i (withReadyState OPEN) (sockets st)) st))))).
    { destruct H1 as (_ & K2 & K3 & K4). repeat split; hsimpl; try assumption. lia. }
    destruct c; [exact H2 |].
    apply (limit_sockets (socket_send (ping now)) i _ (fun _ => eq_refl) H2).
  - destruct (nth_error (sockets st) i) as [s |] eqn:E; [| exact H].
    destruct (isClosed s); [exact H |].
    apply limit_onclose.
    + destruct H as (_ & H2 & _). rewrite Forall_forall in H2.
      apply H2. eapply nth_error_In. exact E.
    + apply limit_sockets; [reflexivity | exact H].
  - destruct (nth_error (sockets st) i); [| exact H].
    destruct H as (H1 & H2 & H3 & H4). repeat split; assumption.
  - destruct (nth_error (sockets st) i) as [s |]; [| exact H].
    destruct (isOpen s); [| exact H]. unfold onmessage. destruct data; [| exact H].
    destruct H as (H1 & H2 & H3 & H4). repeat split; assumption.
  - unfold sendMessage. destruct (socketRef st) as [i |]; [| exact H].
    destruct (nth_error (sockets st) i) as [s |]; [| exact H].
    destruct (isOpen s); [| exact H]. cbn [snd].
    apply limit_sockets; [reflexivity | exact H].
  - destruct (effect st) as [[n timer] |]; [| exact H].
    destruct (limit_cleanup timer st H) as (H1 & H2 & H3 & H4).
    repeat split; hsimpl; try assumption. intros n0 t0 E. discriminate.
Qed.

Lemma limit_run (c : Client) (env : Env) (evs : list Event) (st : Hook) :
  withinLimit st -> withinLimit (run c env evs st).
Proof.
  revert st. induction evs as [| ev evs IH]; intros st H; [exact H |].
  unfold run in *. cbn [fold_left]. apply IH. unfold step.
  apply limit_render, limit_handle, H.
Qed.

(** X8. The counter never passes the limit, and neither does the value of
    it any handler or timer holds: whatever the order of the events, stale
    retries included, the status line never counts beyond
    [maxReconnectAttempts]. *)
Theorem attempts_never_exceed_limit (c : Client) (env : Env) (evs : list Event) :
  let st := run c env evs initial in
  reconnectAttempts st <= maxReconnectAttempts /\
  Forall (fun s => seen s <= maxReconnectAttempts) (sockets st) /\
  Forall (fun t => scope t <= maxReconnectAttempts) (timers st).
Proof.
  cbn zeta.
  assert (H0 : withinLimit initial).
  { unfold withinLimit. cbn. split; [lia |]. split; [constructor |].
    split; [constructor |]. intros ? ? E. discriminate. }
  destruct (limit_run c env evs initial H0) as (H1 & H2 & H3 & _). auto.
Qed.

(** X9. Unmounting a mounted hook (in a browser) leaves no socket open or
    connecting and cancels the timer of the mount effect, and that timer
    only: the retries [onclose] has set stay pending. *)
Theorem unmount_closes_socket_keeps_retries (c : Client) (env : Env)
    (evs : list Event) (n h : nat) :
  let st := run c env evs initial in
  let st' := step c env st Unmounts in
  effect st = Some (n, Some h) ->
  effect st' = None /\
  (forall j s, nth_error (sockets st') j = Some s -> isLive s = false) /\
  timers st' = filter (fun t => negb (handle t =? h)) (timers st).
Proof.
  cbn zeta. intros E. pose proof (run_live c env evs) as L.
  set (st := run c env evs initial) in *.
  unfold step. cbn [handle_event]. rewrite E.
  assert (N : noneLive (cleanup (Some h) st)).
  { change (cleanup (Some h) st) with (closeExisting (clearTimeout h st)).
    apply closeExisting_noneLive. exact L. }
  unfold render. hsimpl. split; [reflexivity |]. split.
  - exact N.
  - unfold cleanup. destruct (socketRef (clearTimeout h st)); reflexivity.
Qed.

Lemma find_filter_other (k h : nat) (ts : list Timer) :
  k <> h ->
  find (fun x => handle x =? k) (filter (fun t => negb (handle t =? h)) ts)
  = find (fun x => handle x =? k) ts.
Proof.
  intros Hne. induction ts as [| t ts IH]; [reflexivity |].
  cbn [filter find]. destruct (handle t =? h) eqn:Eh; cbn [negb].
  - apply Nat.eqb_eq in Eh. destruct (handle t =? k) eqn:Ek; [| exact IH].
    apply Nat.eqb_eq in Ek. congruence.
  - cbn [find]. destruct (handle t =? k); [reflexivity | exact IH].
Qed.

(** The theorem after the first failed socket: the effect holds timer 2,
    which is cleared, and the retry, timer 1, stays. *)
Lemma unmount_closes_socket_keeps_retries_witness :
  let st := run GatewayClient configured retryPending initial in
  let st' := step GatewayClient configured st Unmounts in
  effect st = Some (1, Some 2) /\
  (effect st' = None /\
   (forall j s, nth_error (sockets st') j = Some s -> isLive s = false) /\
   timers st' = filter (fun t => negb (handle t =? 2)) (timers st)).
Proof.
  cbn zeta. split; [reflexivity |].
  exact (unmount_closes_socket_keeps_retries GatewayClient configured retryPending 1 2
           eq_refl).
Defined.

(** X10. A retry that [onclose] has set outlives the component: when its
    timer fires after the unmount, [connect] runs with the scope the timer
    holds and a new socket starts connecting, with no effect left to close
    it. *)
Theorem retry_reconnects_after_unmount (env : Env) (evs : list Event)
    (n h k : nat) (t : Timer) (gateway clientId : string) :
  let st := run GatewayClient env evs initial in
  let st' := run GatewayClient env [Unmounts; TimerFires k clientId] st in
  effect st = Some (n, Some h) ->
  find (fun x => handle x =? k) (timers st) = Some t -> k <> h ->
  NEXT_PUBLIC_WS_GATEWAY env = Some gateway -> isEmpty gateway = false ->
  accepts env (gateway ++ "?client_id=" ++ clientId) = true ->
  effect st' = None /\
  current st' =
    Some {| url := gateway ++ "?client_id=" ++ clientId;
            readyState := CONNECTING; sent := []; seen := scope t |}.
Proof.
  cbn zeta. intros E Hf Hne Hg Hg' Ha.
  set (st := run GatewayClient env evs initial) in *.
  set (st1 := setEffect None (cleanup (Some h) st)).
  assert (S1 : step GatewayClient env st Unmounts = st1).
  { unfold step. cbn [handle_event]. rewrite E. reflexivity. }
  unfold run. cbn [fold_left]. rewrite S1.
  assert (T : timers st1 = filter (fun t => negb (handle t =? h)) (timers st)).
  { unfold st1, cleanup. destruct (socketRef (clearTimeout h st)); reflexivity. }
  assert (Ef : find (fun x => handle x =? k) (timers st1) = Some t).
  { rewrite T, find_filter_other; assumption. }
  unfold step. cbn [handle_event]. rewrite Ef.
  unfold connect. rewrite Hg. cbn [orEmpty]. rewrite Hg'.
  unfold openSocket, wsUrl. rewrite Hg. cbn [orEmpty]. rewrite Ha.
  unfold render. hsimpl.
  assert (E1 : effect (closeExisting (clearTimeout k st1)) = None).
  { unfold closeExisting. destruct (socketRef _); reflexivity. }
  rewrite E1. hsimpl. split; [exact E1 |].
  unfold current. hsimpl. rewrite nth_error_app2, Nat.sub_diag; [| lia].
  reflexivity.
Qed.

(** The retry of the first failed socket, fired after the unmount. *)
Lemma retry_reconnects_after_unmount_witness :
  let st := run GatewayClient configured retryPending initial in
  let st' := run GatewayClient configured [Unmounts; TimerFires 1 "g"] st in
  (effect st = Some (1, Some 2) /\
   find (fun x => handle x =? 1) (timers st)
   = Some {| handle := 1; delay := reconnectInterval; scope := 0 |} /\
   1 <> 2) /\
  (effect st' = None /\
   current st' =
     Some {| url := "wss://gateway.example/prod?client_id=g";
             readyState := CONNECTING; sent := []; seen := 0 |}).
Proof.
  cbn zeta. split; [split; [reflexivity | split; [reflexivity | discriminate]] |].
  pose proof (retry_reconnects_after_unmount configured retryPending 1 2 1
                {| handle := 1; delay := reconnectInterval; scope := 0 |}
                "wss://gateway.example/prod" "g") as W.
  cbv zeta in W. apply W; [reflexivity | reflexivity | discriminate | reflexivity ..].
Defined.

Lemma messages_cleanup (timer : option nat) (st : Hook) : messages (cleanup timer st) = messages st.
Proof.
  unfold cleanup. destruct timer as [h |]; [| reflexivity].
  destruct (socketRef (clearTimeout h st)); reflexivity.
Qed.

Lemma messages_render (env : Env) (st : Hook) : messages (render env st) = messages st.
Proof.
  unfold render. destruct (effect st) as [[n timer] |]; [| reflexivity].
  destruct (n =? reconnectAttempts st); [reflexivity |].
  unfold runEffect. destruct (window env); hsimpl; apply messages_cleanup.
Qed.

Lemma messages_connect (env : Env) (c : Client) (n : nat) (id : string) (st : Hook) :
  messages (connect env c n id st) = messages st.
Proof.
  assert (C : forall st0, messages (closeExisting st0) = messages st0).
  { intros st0. unfold closeExisting. destruct (socketRef st0); reflexivity. }
  assert (O : forall u st0, messages (openSocket env n u st0) = messages st0).
  { intros u st0. unfold openSocket. destruct (accepts env u); reflexivity. }
  unfold connect. destruct c.
  - destruct (isEmpty _); [apply C | rewrite O; apply C].
  - destruct (isEmpty _); [reflexivity | rewrite O; apply C].
Qed.

Lemma messages_onclose (c : Client) (n : nat) (event : CloseEvent) (st : Hook) :
  messages (onclose c n event st) = messages st.
Proof.
  unfold onclose. destruct (negb (wasClean event) && (n <? maxReconnectAttempts)).
  - reflexivity.
  - destruct (maxReconnectAttempts <=? n); reflexivity.
Qed.

Lemma messages_step (c : Client) (env : Env) (ev : Event) (st : Hook) :
  exists more, messages (step c env st ev) = (messages st ++ more)%list /\
               UseAudioPlayback.Subseq more (payloads [ev]).
Proof.
  unfold step. rewrite messages_render.
  assert (Z0 : forall st0, messages st0 = messages st ->
               exists more, messages st0 = (messages st ++ more)%list /\ UseAudioPlayback.Subseq more []).
  { intros st0 H. exists []. rewrite app_nil_r. split; [exact H | apply UseAudioPlayback.Subseq_nil]. }
  assert (Z1 : forall d st0, messages st0 = messages st ->
               exists more, messages st0 = (messages st ++ more)%list /\ UseAudioPlayback.Subseq more [d]).
  { intros d st0 H. exists []. rewrite app_nil_r. split; [exact H |].
    apply UseAudioPlayback.Subseq_skip, UseAudioPlayback.Subseq_nil. }
  destruct ev; cbn [handle_event payloads flat_map app].
  - apply Z0. destruct (effect st); [reflexivity |].
    unfold runEffect. destruct (window env); reflexivity.
  - apply Z0. destruct (find _ _); [| reflexivity]. rewrite messages_connect. reflexivity.
  - apply Z0. destruct (nth_error (sockets st) i) as [s |]; [| reflexivity].
    destruct (isConnecting s); [| reflexivity]. unfold onopen. destruct c; reflexivity.
  - apply Z0. destruct (nth_error (sockets st) i) as [s |]; [| reflexivity].
    destruct (isClosed s); [reflexivity |]. rewrite messages_onclose. reflexivity.
  - apply Z0. destruct (nth_error (sockets st) i); reflexivity.
  - destruct data as [d |].
    + destruct (nth_error (sockets st) i) as [s |]; [| apply Z1; reflexivity].
      destruct (isOpen s); [| apply Z1; reflexivity].
      exists [d]. split; [reflexivity |].
      apply UseAudioPlayback.Subseq_keep, UseAudioPlayback.Subseq_nil.
    + apply Z0. destruct (nth_error (sockets st) i) as [s |]; [| reflexivity].
      destruct (isOpen s); reflexivity.
  - apply Z0. unfold sendMessage. destruct (socketRef st) as [i |]; [| reflexivity].
    destruct (nth_error (sockets st) i) as [s |]; [| reflexivity].
    destruct (isOpen s); reflexivity.
  - apply Z0. destruct (effect st) as [[n timer] |]; [| reflexivity].
    hsimpl. apply messages_cleanup.
Qed.

Lemma Subseq_app {A : Type} (l1 l2 m1 m2 : list A) :
  UseAudioPlayback.Subseq l1 l2 -> UseAudioPlayback.Subseq m1 m2 -> UseAudioPlayback.Subseq (l1 ++ m1) (l2 ++ m2).
Proof.
  intros H K. induction H; cbn [app].
  - exact K.
  - apply UseAudioPlayback.Subseq_skip. exact IHSubseq.
  - apply UseAudioPlayback.Subseq_keep. exact IHSubseq.
Qed.

(** X11. The hook only ever appends to [messages]: over any events the
    list grows by messages that arrived and parsed, in their order of
    arrival; nothing is dropped from it, reordered or repeated, whatever
    the socket does in between. *)
Theorem messages_kept_in_arrival_order (c : Client) (env : Env) (evs : list Event) (st : Hook) :
  exists more, messages (run c env evs st) = (messages st ++ more)%list /\
               UseAudioPlayback.Subseq more (payloads evs).
Proof.
  revert st. induction evs as [| ev evs IH]; intros st.
  - exists []. rewrite app_nil_r. split; [reflexivity | apply UseAudioPlayback.Subseq_nil].
  - destruct (messages_step c env ev st) as (m1 & E1 & S1).
    destruct (IH (step c env st ev)) as (m2 & E2 & S2).
    exists (m1 ++ m2)%list. split.
    + unfold run in *. cbn [fold_left]. rewrite E2, E1, app_assoc. reflexivity.
    + unfold payloads in *. cbn [flat_map] in *. rewrite app_nil_r in S1.
      apply Subseq_app; assumption.
Qed.

Lemma Forall_update_at (P : Socket -> Prop) (f : Socket -> Socket) (i : nat) (ss : list Socket) :
  (forall s, nth_error ss i = Some s -> P s -> P (f s)) -> Forall P ss -> Forall P (update i f ss).
Proof.
  intros Hf H. revert i Hf. induction H as [| s ss Hs Hss IH]; intros [| i] Hf; cbn.
  - constructor.
  - constructor.
  - constructor; [apply Hf; [reflexivity | exact Hs] | exact Hss].
  - constructor; [exact Hs | apply IH; intros s0 E; apply Hf; exact E].
Qed.

Lemma update_update (f g : Socket -> Socket) (i : nat) (ss : list Socket) :
  update i g (update i f ss) = update i (fun s => g (f s)) ss.
Proof.
  revert i. induction ss as [| s ss IH]; intros [| i]; cbn; try reflexivity.
  rewrite IH. reflexivity.
Qed.

Lemma greeted_close (s : Socket) : greeted s = true -> greeted (socket_close s) = true.
Proof.
  unfold socket_close, isLive, greeted. destruct s as [u r fs n]; cbn.
  destruct r; cbn; intros H; try exact H.
  - destruct fs; [reflexivity | discriminate].
  - destruct fs; [discriminate | exact H].
Qed.

Lemma greeted_closed (s : Socket) : greeted s = true -> greeted (withReadyState CLOSED s) = true.
Proof.
  unfold greeted. destruct s as [u r fs n]; cbn.
  destruct r; cbn; intros H; try exact H.
  - destruct fs; [reflexivity | discriminate].
  - destruct fs; [discriminate | exact H].
Qed.

Lemma greeted_send (m : Command) (s : Socket) :
  isOpen s = true -> greeted s = true -> greeted (socket_send m s) = true.
Proof.
  unfold greeted, isOpen. destruct s as [u r fs n]; cbn.
  destruct r; try discriminate. intros _ H. destruct fs; [discriminate | exact H].
Qed.

Lemma greeted_open (now : Z) (s : Socket) :
  isConnecting s = true -> greeted s = true ->
  greeted (socket_send (ping now) (withReadyState OPEN s)) = true.
Proof.
  unfold greeted, isConnecting. destruct s as [u r fs n]; cbn.
  destruct r; try discriminate. intros _ H. destruct fs; [reflexivity | discriminate].
Qed.

Lemma greeted_closeExisting (st : Hook) : allGreeted st -> allGreeted (closeExisting st).
Proof.
  intros H. unfold closeExisting. destruct (socketRef st) as [i |]; [| exact H].
  unfold allGreeted. hsimpl. apply Forall_update; [exact greeted_close | exact H].
Qed.

Lemma greeted_connect (env : Env) (c : Client) (n : nat) (id : string) (st : Hook) :
  allGreeted st -> allGreeted (connect env c n id st).
Proof.
  intros H.
  assert (O : forall u st0, allGreeted st0 -> allGreeted (openSocket env n u st0)).
  { intros u st0 H0. unfold openSocket. destruct (accepts env u); [| exact H0].
    unfold allGreeted. hsimpl. apply Forall_app. split; [exact H0 |].
    constructor; [reflexivity | constructor]. }
  unfold connect. destruct c.
  - destruct (isEmpty _); [apply greeted_closeExisting, H |].
    apply O, greeted_closeExisting, H.
  - destruct (isEmpty _); [exact H |]. apply O, greeted_closeExisting, H.
Qed.

Lemma greeted_cleanup (timer : option nat) (st : Hook) : allGreeted st -> allGreeted (cleanup timer st).
Proof.
  intros H. unfold cleanup. destruct timer as [h |]; [| exact H].
  change (allGreeted (closeExisting (clearTimeout h st))).
  apply greeted_closeExisting. exact H.
Qed.

Lemma greeted_render (env : Env) (st : Hook) : allGreeted st -> allGreeted (render env st).
Proof.
  intros H. unfold render. destruct (effect st) as [[n timer] |]; [| exact H].
  destruct (n =? reconnectAttempts st); [exact H |].
  pose proof (greeted_cleanup timer st H) as K.
  unfold runEffect. destruct (window env); exact K.
Qed.

Lemma greeted_handle (env : Env) (ev : Event) (st : Hook) :
  allGreeted st -> allGreeted (handle_event GatewayClient env ev st).
Proof.
  intros H. destruct ev; cbn [handle_event].
  - destruct (effect st); [exact H |]. unfold runEffect. destruct (window env); exact H.
  - destruct (find _ _); [| exact H]. apply greeted_connect. exact H.
  - destruct (nth_error (sockets st) i) as [s |] eqn:E; [| exact H].
    destruct (isConnecting s) eqn:Ec; [| exact H].
    unfold onopen, allGreeted. hsimpl. rewrite update_update.
    apply Forall_update_at; [| exact H].
    intros s0 E0 G0. rewrite E in E0. injection E0 as <-.
    apply greeted_open; assumption.
  - destruct (nth_error (sockets st) i) as [s |] eqn:E; [| exact H].
    destruct (isClosed s); [exact H |].
    unfold allGreeted.
    destruct (onclose_sockets GatewayClient (seen s) event
                (setSockets (update i (withReadyState CLOSED) (sockets st)) st)) as (Hs & _).
    rewrite Hs. hsimpl. apply Forall_update; [exact greeted_closed | exact H].
  - destruct (nth_error (sockets st) i); exact H.
  - destruct (nth_error (sockets st) i) as [s |]; [| exact H].
    destruct (isOpen s); [| exact H]. unfold onmessage. destruct data; exact H.
  - unfold sendMessage. destruct (socketRef st) as [i |]; [| exact H].
    destruct (nth_error (sockets st) i) as [s |] eqn:E; [| exact H].
    destruct (isOpen s) eqn:Eo; [| exact H]. cbn [snd].
    unfold allGreeted. hsimpl. apply Forall_update_at; [| exact H].
    intros s0 E0 G0. rewrite E in E0. injection E0 as <-.
    apply greeted_send; assumption.
  - destruct (effect st) as [[n timer] |]; [| exact H].
    exact (greeted_cleanup timer st H).
Qed.

(** X12. In the gateway variant every socket that has sent anything has
    sent the ping first: a connecting socket has sent nothing, an open one
    has sent at least the ping, and no frame ever precedes it. *)
Theorem gateway_hears_ping_first (env : Env) (evs : list Event) :
  Forall (fun s =>
            (readyState s = CONNECTING -> sent s = []) /\
            (readyState s = OPEN -> sent s <> []) /\
            (sent s = [] \/ exists now rest, sent s = ping now :: rest))
         (sockets (run GatewayClient env evs initial)).
Proof.
  assert (G : forall st, allGreeted st -> allGreeted (run GatewayClient env evs st)).
  { induction evs as [| ev evs IH]; intros st Hst; [exact Hst |].
    unfold run in *. cbn [fold_left]. apply IH. unfold step.
    apply greeted_render, greeted_handle, Hst. }
  assert (H : allGreeted (run GatewayClient env evs initial)).
  { apply G. constructor. }
  unfold allGreeted in H. rewrite Forall_forall in *. intros s Hin.
  specialize (H s Hin). unfold greeted, pingFirst in H.
  destruct s as [u r fs n]; cbn in *. destruct fs as [| [] rest]; try (destruct r; discriminate).
  - split; [reflexivity |]. split; [destruct r; discriminate || (intros; discriminate) | left; reflexivity].
  - split; [destruct r; try discriminate; intros; discriminate |].
    split; [intros _; discriminate |]. right. eauto.
Qed.

End SessionFacts.

(* ===================================================================== *)
Module StreamFacts.
Import UseAudioPlayback Streams.
Import PlaybackFacts.
Local Open Scope nat_scope.

Section Idle.
Variable env : Browser.

Lemma rendered_mount (st : Playback) :
  rendered (mount env st) = rendered st /\ pcmQueue (mount env st) = pcmQueue st /\
  isMuted (mount env st) = isMuted st /\ isReceivingPcm (mount env st) = isReceivingPcm st /\
  elementPaused (mount env st) = (if hasWindow env then true else elementPaused st).
Proof.
  unfold mount, initAudioContext, elementPaused. psimpl.
  destruct (hasWindow env); [| repeat split].
  destruct (negb (audioContext st) && true); [| repeat split].
  destruct (AudioContext_ok env); repeat split.
Qed.

Lemma rendered_afterPlayback_idle (st : Playback) :
  pcmQueue st = [] ->
  rendered (afterPlayback env st) = rendered st /\ pcmQueue (afterPlayback env st) = [] /\
  isMuted (afterPlayback env st) = isMuted st /\
  isReceivingPcm (afterPlayback env st) = isReceivingPcm st /\
  audioPlayer (afterPlayback env st) = audioPlayer st.
Proof.
  intros Hq. unfold afterPlayback. psimpl. rewrite Hq.
  destruct (negb (isReceivingPcm st)); repeat split; assumption.
Qed.


Lemma muted_step (st : Playback) (ev : Event) :
  Muted st -> isToggleMute ev = false ->
  Muted (step env st ev) /\ rendered (step env st ev) = rendered st.
Proof.
  intros (Hm & Hq & Hp) Hev. destruct ev; cbn [step]; try discriminate.
  - destruct (rendered_mount st) as (R & Q & M & _ & P).
    split; [| exact R]. split; [congruence |]. split; [congruence |].
    rewrite P. destruct (hasWindow env); [reflexivity | exact Hp].
  - unfold startPcmStream. rewrite Hm. cbn [snd]. split; [split; auto | reflexivity].
  - unfold endPcmStream. psimpl. rewrite Hq. split; [split; auto | reflexivity].
  - unfold processPcmChunk. rewrite Hm. cbn [orb]. split; [split; auto | reflexivity].
  - unfold interruptPlayback. destruct (isPlaying st); cbn [snd]; [| split; [split; auto | reflexivity]].
    unfold Muted, rendered, elementPaused, stopElement.
    destruct (audioPlayer st) eqn:Ea; psimpl; rewrite ?Ea; cbn; auto.
  - unfold playAudio. rewrite Hm. split; [split; auto | reflexivity].
  - destruct (nth_error (sources st) i) as [s |]; [| split; [split; auto | reflexivity]].
    destruct (rendering s); [| split; [split; auto | reflexivity]].
    destruct (rendered_afterPlayback_idle
                (setSources (update i stopRendering (sources st)) st) Hq)
      as (R & Q & M & _ & A).
    split.
    + split; [rewrite M; exact Hm |]. split; [exact Q |].
      unfold elementPaused. rewrite A. exact Hp.
    + rewrite R. unfold rendered. psimpl. apply update_pcmData.
  - destruct (audioPlayer st) eqn:E; split; try reflexivity; try (split; auto).
  - destruct (audioPlayer st) eqn:E; split; try reflexivity; try (split; auto).
Qed.

Lemma muted_run (evs : list Event) (st : Playback) :
  Muted st -> forallb (fun ev => negb (isToggleMute ev)) evs = true ->
  Muted (run env evs st) /\ rendered (run env evs st) = rendered st.
Proof.
  revert st. induction evs as [| ev evs IH]; intros st H Hevs; [split; [exact H | reflexivity] |].
  cbn [forallb] in Hevs. apply andb_prop in Hevs as [Hev Hevs].
  apply negb_true_iff in Hev.
  destruct (muted_step st ev H Hev) as (H1 & R1).
  destruct (IH (step env st ev) H1 Hevs) as (H2 & R2).
  unfold run in *. cbn [fold_left]. split; [exact H2 | congruence].
Qed.

(** X13. Muting while the assistant speaks silences it until the mute is
    lifted: whatever arrives or ends meanwhile (chunks, a new stream, the
    end of a playback, a clip), no further chunk is handed to the audio
    output, the queue stays empty and the audio element stays paused. *)
Theorem muting_silences_until_unmuted (st : Playback) (evs : list Event) :
  isMuted st = false -> isPlaying st = true ->
  forallb (fun ev => negb (isToggleMute ev)) evs = true ->
  let st' := run env (ToggleMute :: evs) st in
  rendered st' = rendered st /\ pcmQueue st' = [] /\
  isMuted st' = true /\ elementPaused st' = true.
Proof.
  cbn zeta. intros Hm Hp Hevs.
  assert (H0 : Muted (step env st ToggleMute) /\ rendered (step env st ToggleMute) = rendered st).
  { cbn [step]. unfold toggleMute, interruptPlayback. psimpl. rewrite Hm, Hp. cbn [negb andb snd].
    unfold Muted, rendered, elementPaused, stopElement. psimpl.
    destruct (audioPlayer st) eqn:Ea; psimpl; rewrite ?Ea; cbn; auto. }
  destruct H0 as (H0 & R0).
  destruct (muted_run evs _ H0 Hevs) as ((M & Q & P) & R).
  unfold run in *. cbn [fold_left]. repeat split; try assumption. congruence.
Qed.


Lemma stopped_step (st : Playback) (ev : Event) :
  Stopped st -> isStartPcmStream ev = false ->
  Stopped (step env st ev) /\ rendered (step env st ev) = rendered st.
Proof.
  intros (Hr & Hq) Hev. destruct ev; cbn [step]; try discriminate.
  - destruct (rendered_mount st) as (R & Q & _ & M & _).
    split; [| exact R]. split; congruence.
  - unfold endPcmStream. psimpl. rewrite Hq. split; [split; auto | reflexivity].
  - unfold processPcmChunk. rewrite Hr. rewrite orb_true_r. split; [split; auto | reflexivity].
  - unfold interruptPlayback. destruct (isPlaying st); cbn [snd]; [| split; [split; auto | reflexivity]].
    unfold Stopped, rendered, stopElement.
    destruct (audioPlayer st) eqn:Ea; psimpl; rewrite ?Ea; cbn; auto.
  - unfold toggleMute, interruptPlayback. psimpl.
    destruct (negb (isMuted st) && isPlaying st) eqn:E; cbn [snd].
    + apply andb_prop in E as [_ ->]. cbn [snd].
      unfold Stopped, rendered, stopElement. psimpl.
      destruct (audioPlayer st) eqn:Ea; psimpl; rewrite ?Ea; cbn; auto.
    + split; [split; assumption | reflexivity].
  - unfold playAudio. destruct (isMuted st); [split; [split; auto | reflexivity] |].
    destruct (audioPlayer st); split; try reflexivity; split; assumption.
  - destruct (nth_error (sources st) i) as [s |]; [| split; [split; auto | reflexivity]].
    destruct (rendering s); [| split; [split; auto | reflexivity]].
    destruct (rendered_afterPlayback_idle
                (setSources (update i stopRendering (sources st)) st) Hq)
      as (R & Q & _ & M & _).
    split; [split; [rewrite M; exact Hr | exact Q] |].
    rewrite R. unfold rendered. psimpl. apply update_pcmData.
  - destruct (audioPlayer st); split; try reflexivity; split; assumption.
  - destruct (audioPlayer st); split; try reflexivity; split; assumption.
Qed.

(** X14. After an interrupt that found the hook playing, nothing more of
    the stream is heard: until the next [startPcmStream] every chunk that
    arrives is dropped, no source is started and the queue stays empty. *)
Theorem interrupt_silences_until_next_stream (st : Playback) (evs : list Event) :
  isPlaying st = true ->
  forallb (fun ev => negb (isStartPcmStream ev)) evs = true ->
  let st' := run env (InterruptPlayback :: evs) st in
  rendered st' = rendered st /\ pcmQueue st' = [] /\ isReceivingPcm st' = false.
Proof.
  cbn zeta. intros Hp Hevs.
  assert (G : forall evs st0, Stopped st0 ->
              forallb (fun ev => negb (isStartPcmStream ev)) evs = true ->
              Stopped (run env evs st0) /\ rendered (run env evs st0) = rendered st0).
  { clear. induction evs as [| ev evs IH]; intros st0 H Hevs; [split; [exact H | reflexivity] |].
    cbn [forallb] in Hevs. apply andb_prop in Hevs as [Hev Hevs].
    apply negb_true_iff in Hev.
    destruct (stopped_step st0 ev H Hev) as (H1 & R1).
    destruct (IH (step env st0 ev) H1 Hevs) as (H2 & R2).
    unfold run in *. cbn [fold_left]. split; [exact H2 | congruence]. }
  assert (H0 : Stopped (step env st InterruptPlayback) /\
               rendered (step env st InterruptPlayback) = rendered st).
  { cbn [step]. unfold interruptPlayback. rewrite Hp. cbn [snd].
    unfold Stopped, rendered, stopElement.
    destruct (audioPlayer st) eqn:Ea; psimpl; rewrite ?Ea; cbn; auto. }
  destruct H0 as (H0 & R0).
  destruct (G evs _ H0 Hevs) as ((R & Q) & Rd).
  unfold run in *. cbn [fold_left]. repeat split; try assumption. congruence.
Qed.


(** X15. [processPcmQueue], when no playback is in flight, drops the chunks
    at the head of the queue whose conversion throws and starts the first
    one that converts; when none converts it empties the queue and leaves
    [isPlaying] as it was. *)
Theorem processPcmQueue_skips_unplayable (st : Playback) :
  audioContext st = true -> isProcessingPcm st = false ->
  processPcmQueue env st =
    match dropUnplayable env (pcmSampleRate st) (pcmQueue st) with
    | [] => setPcmQueue [] st
    | c :: rest =>
        setSources (sources st ++ [sourceOf st c])
          (setIsProcessingPcm true (setPcmQueue rest st))
    end.
Proof.
  unfold processPcmQueue. generalize (pcmQueue st) as q. intros q. revert st.
  induction q as [| c rest IH]; intros st Ha Hp; cbn [processQueue dropUnplayable].
  - reflexivity.
  - rewrite Hp, Ha. cbn [orb negb]. unfold convertPcmToAudioBuffer. rewrite Ha. cbn [negb].
    destruct (createBuffer_ok env (Nat.div (List.length c) 2) (pcmSampleRate st)) eqn:E.
    + reflexivity.
    + destruct rest as [| c' rest'].
      * cbn [dropUnplayable]. destruct st; cbn in *; subst; reflexivity.
      * rewrite IH; [| exact Ha | reflexivity]. psimpl. unfold sourceOf. psimpl.
        destruct (dropUnplayable env (pcmSampleRate st) (c' :: rest')).
        -- destruct st; cbn in *; subst; reflexivity.
        -- destruct st; cbn in *; subst; reflexivity.
Qed.

End Idle.

(** Muted during the first chunk of a stream; the stream goes on. *)
Lemma muting_silences_until_unmuted_witness :
  let st' := run browser (ToggleMute :: goesOn) midStream in
  (isMuted midStream = false /\ isPlaying midStream = true /\
   forallb (fun ev => negb (isToggleMute ev)) goesOn = true) /\
  (rendered st' = rendered midStream /\ pcmQueue st' = [] /\
   isMuted st' = true /\ elementPaused st' = true).
Proof.
  cbn zeta. split; [repeat split |].
  exact (muting_silences_until_unmuted browser midStream goesOn eq_refl eq_refl eq_refl).
Defined.

(** Interrupted during the first chunk; the rest of the stream arrives. *)
Lemma interrupt_silences_until_next_stream_witness :
  let st' := run browser (InterruptPlayback :: leftover) midStream in
  (isPlaying midStream = true /\
   forallb (fun ev => negb (isStartPcmStream ev)) leftover = true) /\
  (rendered st' = rendered midStream /\ pcmQueue st' = [] /\
   isReceivingPcm st' = false).
Proof.
  cbn zeta. split; [repeat split |].
  exact (interrupt_silences_until_next_stream browser midStream leftover eq_refl eq_refl).
Defined.

(** A chunk of one byte ahead of two good ones: the first good one is
    started, the other waits. *)
Lemma processPcmQueue_skips_unplayable_witness :
  (audioContext brokenQueue = true /\ isProcessingPcm brokenQueue = false) /\
  processPcmQueue browser brokenQueue =
    match dropUnplayable browser (pcmSampleRate brokenQueue) (pcmQueue brokenQueue) with
    | [] => setPcmQueue [] brokenQueue
    | c :: rest =>
        setSources (sources brokenQueue ++ [sourceOf brokenQueue c])
          (setIsProcessingPcm true (setPcmQueue rest brokenQueue))
    end.
Proof.
  split; [split; reflexivity |].
  exact (processPcmQueue_skips_unplayable browser brokenQueue eq_refl eq_refl).
Defined.

End StreamFacts.

(* ===================================================================== *)
Module RouterFacts.
Import Wire ChatInterface Router.
Local Open Scope string_scope.
Local Open Scope nat_scope.


Lemma exec_seq {A : Type} (m : M A) (k : M unit) (st : Chat) :
  exec (m ;; k)%chat st = exec k (exec m st).
Proof. unfold exec, bind. destruct (m st) as [a st1]. reflexivity. Qed.

Lemma includes_cons (needle : string) (c : Ascii.ascii) (s : string) :
  UseWebSocket.includes needle s = true ->
  UseWebSocket.includes needle (String c s) = true.
Proof.
  intros H. cbn [UseWebSocket.includes].
  destruct (String.prefix needle (String c s)); [reflexivity | exact H].
Qed.

Lemma includes_prefix (needle s : string) :
  String.prefix needle s = true -> UseWebSocket.includes needle s = true.
Proof. intros H. destruct s; cbn [UseWebSocket.includes]; rewrite H; reflexivity. Qed.

Lemma prefix_tail (a b : Ascii.ascii) (needle s : string) :
  String.prefix (String a needle) (String b s) = true -> String.prefix needle s = true.
Proof.
  change (String.prefix (String a needle) (String b s))
    with (if Ascii.ascii_dec a b then String.prefix needle s else false).
  destruct (Ascii.ascii_dec a b); [trivial | discriminate].
Qed.

Lemma prefix_deactivated (t : string) :
  String.prefix "deactivated" t = true -> UseWebSocket.includes "activated" t = true.
Proof.
  intros H. destruct t as [| a [| b rest]]; try discriminate.
  - apply prefix_tail in H. discriminate.
  - apply includes_cons, includes_cons, includes_prefix.
    apply prefix_tail, prefix_tail in H. exact H.
Qed.

Lemma deactivated_includes_activated (t : string) :
  UseWebSocket.includes "deactivated" t = true -> UseWebSocket.includes "activated" t = true.
Proof.
  induction t as [| c t IH]; intros H.
  - cbn in H. discriminate.
  - cbn [UseWebSocket.includes] in H.
    destruct (String.prefix "deactivated" (String c t)) eqn:E.
    + apply prefix_deactivated. exact E.
    + apply includes_cons, IH, H.
Qed.

Lemma activation_step (env : UseAudioPlayback.Browser) (m : Inbound) (st : Chat) :
  isActivated (exec (processMessage env m) st) = isActivated st || activates m.
Proof.
  destruct m; cbn [processMessage activates]; try (rewrite orb_false_r; reflexivity).
  - destruct (UseWebSocket.includes "activated" text) eqn:E.
    + rewrite orb_true_r. reflexivity.
    + destruct (UseWebSocket.includes "deactivated" text) eqn:D.
      * apply deactivated_includes_activated in D. congruence.
      * rewrite orb_false_r. reflexivity.
  - rewrite orb_false_r. unfold exec, bind, onPlayback, ret.
    destruct (UseAudioPlayback.startPcmStream env sampleRate (playback st)). reflexivity.
  - rewrite orb_false_r. destruct (String.eqb format "pcm"); reflexivity.
Qed.

(** X16. No message clears [isActivated]: a status text that contains
    'deactivated' contains 'activated' too, so the first branch of the
    router takes it.  After any messages the flag is set exactly when it
    was set before or one of them was a status text with 'activated'. *)
Theorem activation_is_never_cleared (env : UseAudioPlayback.Browser)
    (ms : list Inbound) (st : Chat) :
  isActivated (exec (processMessages env ms) st) = isActivated st || existsb activates ms.
Proof.
  revert st. induction ms as [| m ms IH]; intros st; cbn [processMessages existsb].
  - rewrite orb_false_r. reflexivity.
  - rewrite exec_seq, IH, activation_step, orb_assoc. reflexivity.
Qed.

Lemma transcript_step (env : UseAudioPlayback.Browser) (m : Inbound) (st : Chat) :
  let st' := exec (processMessage env m) st in
  chatMessages st' = (chatMessages st ++ bubble m)%list /\
  ws st' = ws st /\ recorder st' = recorder st /\ inputText st' = inputText st.
Proof.
  cbn zeta. destruct m; cbn [processMessage bubble]; rewrite ?app_nil_r;
    try (repeat split; reflexivity).
  - destruct (UseWebSocket.includes "activated" text); [repeat split; reflexivity |].
    destruct (UseWebSocket.includes "deactivated" text); repeat split; reflexivity.
  - unfold exec, bind, onPlayback, ret.
    destruct (UseAudioPlayback.startPcmStream env sampleRate (playback st)).
    repeat split; reflexivity.
  - destruct (String.eqb format "pcm"); repeat split; reflexivity.
Qed.

(** X17. The router adds to the transcript exactly the transcriptions,
    responses and errors, in the order the messages came, and nothing
    else; it sends no frame and leaves the recorder and the input alone. *)
Theorem router_keeps_transcript_in_order (env : UseAudioPlayback.Browser)
    (ms : list Inbound) (st : Chat) :
  let st' := exec (processMessages env ms) st in
  chatMessages st' = (chatMessages st ++ flat_map bubble ms)%list /\
  ws st' = ws st /\ recorder st' = recorder st /\ inputText st' = inputText st.
Proof.
  cbn zeta. revert st. induction ms as [| m ms IH]; intros st; cbn [processMessages flat_map].
  - rewrite app_nil_r. repeat split; reflexivity.
  - rewrite exec_seq.
    destruct (transcript_step env m st) as (C1 & W1 & R1 & I1).
    destruct (IH (exec (processMessage env m) st)) as (C2 & W2 & R2 & I2).
    rewrite C2, W2, R2, I2, C1, W1, R1, I1, app_assoc. repeat split; reflexivity.
Qed.

Lemma playback_step (env : UseAudioPlayback.Browser) (m : Inbound) (st : Chat) :
  playback (exec (processMessage env m) st) =
  UseAudioPlayback.run env (audioEvent m) (playback st).
Proof.
  destruct m; cbn [processMessage audioEvent]; try reflexivity.
  - destruct (UseWebSocket.includes "activated" text); [reflexivity |].
    destruct (UseWebSocket.includes "deactivated" text); reflexivity.
  - unfold exec, bind, onPlayback, ret, UseAudioPlayback.run. cbn [fold_left UseAudioPlayback.step].
    destruct (UseAudioPlayback.startPcmStream env sampleRate (playback st)). reflexivity.
  - destruct (String.eqb format "pcm"); reflexivity.
Qed.

Lemma run_app (env : UseAudioPlayback.Browser) (evs1 evs2 : list UseAudioPlayback.Event)
    (p : UseAudioPlayback.Playback) :
  UseAudioPlayback.run env (evs1 ++ evs2) p =
  UseAudioPlayback.run env evs2 (UseAudioPlayback.run env evs1 p).
Proof. unfold UseAudioPlayback.run. apply fold_left_app. Qed.

(** X18. What the router does to the playback hook is what the stream
    starts, ends and PCM chunks among the messages do, taken in order;
    chunks of another format never reach it.  So the chunks started and
    queued are chunks that came in PCM messages, in their order. *)
Theorem router_drives_playback_in_order (env : UseAudioPlayback.Browser)
    (ms : list Inbound) (st : Chat) :
  let st' := exec (processMessages env ms) st in
  playback st' = UseAudioPlayback.run env (audioEvents ms) (playback st) /\
  UseAudioPlayback.Subseq
    (UseAudioPlayback.line (playback st'))
    (UseAudioPlayback.line (playback st)
       ++ UseAudioPlayback.delivered (audioEvents ms))%list.
Proof.
  cbn zeta.
  assert (E : playback (exec (processMessages env ms) st) =
              UseAudioPlayback.run env (audioEvents ms) (playback st)).
  { revert st. induction ms as [| m ms IH]; intros st; cbn [processMessages]; [reflexivity |].
    rewrite exec_seq, IH, playback_step. unfold audioEvents. cbn [flat_map].
    rewrite run_app. reflexivity. }
  split; [exact E |]. rewrite E. apply PlaybackFacts.run_line.
Qed.

(** X19. [handleInterrupt] leaves the playback stopped, so a second call
    changes nothing and sends no second [interrupt_speech]; on a component
    that is not playing the first call changes nothing either. *)
Theorem handleInterrupt_is_idempotent (st : Chat) :
  let st' := exec handleInterrupt st in
  UseAudioPlayback.isPlaying (playback st') = false /\
  exec handleInterrupt st' = st' /\
  (UseAudioPlayback.isPlaying (playback st) = false -> st' = st).
Proof.
  cbn zeta.
  assert (P : UseAudioPlayback.isPlaying (playback (exec handleInterrupt st)) = false).
  { unfold exec, handleInterrupt, bind, isPlaying, when, ret, interruptPlayback,
      sendMessage, onPlayback, onWs.
    destruct (UseAudioPlayback.isPlaying (playback st)) eqn:E; [| exact E].
    unfold UseAudioPlayback.interruptPlayback. rewrite E. cbn [playback ws fst snd].
    destruct (UseWebSocket.sendMessage interrupt_speech (ws st)). reflexivity. }
  split; [exact P |]. split.
  - set (st1 := exec handleInterrupt st) in *.
    unfold exec, handleInterrupt, bind, isPlaying, when, ret. rewrite P. reflexivity.
  - intros E. unfold exec, handleInterrupt, bind, isPlaying, when, ret. rewrite E. reflexivity.
Qed.

End RouterFacts.

(* ===================================================================== *)
Module MicrophoneFacts.
Import UseAudioRecording Microphone.
Local Open Scope nat_scope.

(** X21. [toggleRecording] is no toggle until the stream has arrived:
    [isRecording] is set by the [then] of [getUserMedia] only, so each of
    [n] taps made before that asks for the microphone again. *)
Theorem taps_before_the_stream_pile_up (n : nat) (st : Recording) :
  isRecording st = false ->
  let st' := runOps true (repeat Toggle n) st in
  requests st' = requests st + n /\ isRecording st' = false /\ stream st' = stream st.
Proof.
  cbn zeta. revert st. induction n as [| n IH]; intros st H.
  - cbn. repeat split; try assumption. lia.
  - cbn [repeat]. unfold runOps in *. cbn [fold_left apply].
    assert (E : toggleRecording true st =
                {| isRecording := isRecording st; isListening := isListening st;
                   mediaRecorder := mediaRecorder st; audioChunks := audioChunks st;
                   stream := stream st; requests := S (requests st) |}).
    { unfold toggleRecording, startRecording. rewrite H. reflexivity. }
    rewrite E.
    destruct (IH {| isRecording := isRecording st; isListening := isListening st;
                    mediaRecorder := mediaRecorder st; audioChunks := audioChunks st;
                    stream := stream st; requests := S (requests st) |} H) as (R & I & S').
    cbn in R, S'. repeat split; try assumption. lia.
Qed.

(** Two taps on the fresh hook. *)
Lemma taps_before_the_stream_pile_up_witness :
  let st' := runOps true (repeat Toggle 2) initial in
  isRecording initial = false /\
  (requests st' = requests initial + 2 /\ isRecording st' = false /\
   stream st' = stream initial).
Proof.
  cbn zeta. split; [reflexivity |].
  exact (taps_before_the_stream_pile_up 2 initial eq_refl).
Defined.

End MicrophoneFacts.

(* ===================================================================== *)
Module LegacyFacts.
Import Wire Legacy LegacyTurns.
Local Open Scope nat_scope.

Lemma interrupts_app (w1 w2 : list Command) :
  interrupts (w1 ++ w2) = interrupts w1 + interrupts w2.
Proof. unfold interrupts. rewrite filter_app, length_app. reflexivity. Qed.

Lemma owed_interruptSpeech (p : Page) : owed (interruptSpeech p) <= owed p.
Proof.
  unfold owed, interruptSpeech. destruct (isAssistantSpeaking p) eqn:E;
    cbn [wire isAssistantSpeaking]; [| rewrite E; lia].
  destruct (socketOpen p); [rewrite interrupts_app; cbn; lia | lia].
Qed.

Lemma owed_barge (p : Page) :
  owed (if isAssistantSpeaking p then interruptSpeech p else p) <= owed p.
Proof. destruct (isAssistantSpeaking p); [apply owed_interruptSpeech | lia]. Qed.

Lemma owed_turn (p : Page) (t : Turn) :
  owed (turn p t) <= owed p + (if isPlays t then 1 else 0).
Proof.
  destruct t; cbn [turn isPlays].
  - unfold sendTextQuery. destruct (UseWebSocket.isEmpty text); [lia |].
    destruct (socketOpen p); [| lia].
    pose proof (owed_barge p) as H.
    set (p1 := if isAssistantSpeaking p then interruptSpeech p else p) in *.
    unfold owed in *. cbn [wire isAssistantSpeaking]. rewrite interrupts_app. cbn. lia.
  - unfold toggleRecording. destruct (isRecording p).
    + unfold stopRecording, owed. cbn [wire isAssistantSpeaking].
      destruct (socketOpen p); [rewrite interrupts_app; cbn; lia | lia].
    + pose proof (owed_barge p) as H.
      set (p1 := if isAssistantSpeaking p then interruptSpeech p else p) in *.
      unfold startRecording. destruct (isRecording p1); [lia |].
      unfold owed in *. cbn [wire isAssistantSpeaking]. lia.
  - unfold processAudioBlob. pose proof (owed_barge p). lia.
  - unfold onloadend. destruct (socketOpen p); [| lia].
    unfold owed. cbn [wire isAssistantSpeaking]. rewrite interrupts_app. cbn. lia.
  - pose proof (owed_interruptSpeech p). lia.
  - unfold owed, toggleMute. cbn [wire isAssistantSpeaking].
    destruct (socketOpen p); rewrite ?interrupts_app;
      destruct muted; destruct (isAssistantSpeaking p); cbn; lia.
  - unfold owed, setSpeaking. cbn [wire isAssistantSpeaking].
    destruct (isAssistantSpeaking p); lia.
  - unfold owed, setSpeaking. cbn [wire isAssistantSpeaking].
    destruct (isAssistantSpeaking p); lia.
Qed.

(** X22. The legacy page never reports more interruptions than there was
    speech: over any turns (queries, taps, recorded blobs, the interrupt
    and mute buttons, the audio element starting and stopping) the
    [interrupt_speech] frames sent, counting one more while the assistant
    is speaking, number at most those owed before plus the times the
    assistant started to speak. *)
Theorem legacy_interrupts_at_most_once_per_play (ts : list Turn) (p : Page) :
  interrupts (wire (turns ts p)) + (if isAssistantSpeaking (turns ts p) then 1 else 0)
  <= interrupts (wire p) + (if isAssistantSpeaking p then 1 else 0) + plays ts.
Proof.
  change (owed (turns ts p) <= owed p + plays ts).
  revert p. induction ts as [| t ts IH]; intros p.
  - cbn. lia.
  - unfold turns in *. cbn [fold_left]. specialize (IH (turn p t)).
    pose proof (owed_turn p t) as H.
    unfold plays in *. cbn [filter]. destruct (isPlays t); cbn [List.length]; lia.
Qed.

End LegacyFacts.
